(** * stereo_slam: the tracking front-end (src/localization/tracking.cpp)

    A shallow embedding of [slam::Tracking]: the tracking state machine
    ([msgsCallback]), the odometry-to-camera lookup ([getOdom2CameraTf]),
    descriptor matching and motion estimation ([trackCurrentFrame]) and the
    fixed-frame policy ([needNewFixedFrame]).

    The object's members are a record that is passed explicitly; every call
    that leaves the class (tf listener, graph, map, publisher, OpenCV solver,
    ROS log) is recorded in the list of events a method returns. *)

From Stdlib Require Import ZArith QArith String List Bool Floats Uint63 Lia PeanoNat.
Import ListNotations.
Close Scope Q_scope.

Set Implicit Arguments.

(** ** Data owned by collaborators *)

(** The message and OpenCV/tf value types the tracker only moves around.
    [Mat] is [cv::Mat]: images, descriptor matrices, the camera matrix and the
    rotation/translation vectors all have this type in the source. *)
Class SlamTypes : Type := {
  Odometry : Type;           (* nav_msgs::Odometry *)
  Image : Type;              (* sensor_msgs::Image *)
  CameraInfo : Type;         (* sensor_msgs::CameraInfo *)
  Mat : Type;                (* cv::Mat *)
  Point2f : Type;            (* cv::Point2f *)
  Point3f : Type;            (* cv::Point3f *)
  Transform : Type;          (* tf::Transform / tf::StampedTransform *)
  StereoCameraModel : Type   (* image_geometry::StereoCameraModel *)
}.

(** [enum trackingState] of tracking.h, as used in tracking.cpp. *)
Inductive trackingState : Type :=
| NOT_INITIALIZED
| INITIALIZING
| WORKING.

Definition trackingState_eqb (a b : trackingState) : bool :=
  match a, b with
  | NOT_INITIALIZED, NOT_INITIALIZED => true
  | INITIALIZING, INITIALIZING => true
  | WORKING, WORKING => true
  | _, _ => false
  end.

(** [cv::DMatch]; [distance] is a C [float], compared in double precision. *)
Record DMatch : Type := {
  queryIdx : nat;
  trainIdx : nat;
  distance : float
}.

Section Model.

Context {T : SlamTypes}.

(** [cv::KeyPoint]; tracking.cpp reads only its [pt]. *)
Record KeyPoint : Type := { pt : Point2f }.

(** Modelled from the spec: the [Frame] entity (localization/frame.h is not
    part of the sources at hand).  Section 3 of the specification lists what a
    frame holds: left descriptors and keypoints, the 3D points in camera
    space, an odometry-derived pose and an inlier count; world points are what
    [computeWorldPoints] and [clusterWorldpoints] produce.  The field names are
    the accessors tracking.cpp calls. *)
Record Frame : Type := {
  getLeftDesc : Mat;
  getLeftKp : list KeyPoint;
  getCameraPoints : list Point3f;
  getOdometryPose : Transform;
  getInliers : nat;
  getWorldPoints : list Point3f
}.

Definition setInliers (n : nat) (f : Frame) : Frame :=
  {| getLeftDesc := getLeftDesc f; getLeftKp := getLeftKp f;
     getCameraPoints := getCameraPoints f;
     getOdometryPose := getOdometryPose f;
     getInliers := n; getWorldPoints := getWorldPoints f |}.

Definition setOdometryPose (p : Transform) (f : Frame) : Frame :=
  {| getLeftDesc := getLeftDesc f; getLeftKp := getLeftKp f;
     getCameraPoints := getCameraPoints f;
     getOdometryPose := p;
     getInliers := getInliers f; getWorldPoints := getWorldPoints f |}.

(** The arguments of one [cv::solvePnPRansac] call, in the order of the call
    at tracking.cpp:168; [countParam] is the integer passed after the
    reprojection error. *)
Record PnPCall : Type := {
  objectPoints : list Point3f;
  imagePoints : list Point2f;
  cameraMatrix : Mat;
  distCoeffs : Mat;
  rvecIn : Mat;
  tvecIn : Mat;
  useExtrinsicGuess : bool;
  iterationsCount : nat;
  reprojectionError : float;
  countParam : nat
}.

(** Calls that leave the tracker. *)
Inductive Event : Type :=
| LookupTransform (target source : string)  (* tf_listener_.lookupTransform *)
| RosWarn                                   (* ROS_WARN *)
| GraphSetCamera2Odom (t : Transform)       (* graph_->setCamera2Odom *)
| GraphSetCameraMatrix (m : Mat)            (* graph_->setCameraMatrix *)
| SolvePnPRansac (c : PnPCall)              (* cv::solvePnPRansac *)
| PublisherUpdate                           (* f_pub_->update(this) *)
| MapAddPoints (f : Frame).                 (* map_.addPoints *)

(** The functions of the collaborators.  [MIN_INLIERS] and [MAX_INLIERS] are
    constants of tracking.h; the [Tools] helpers, the [Frame] constructor and
    its two world-point methods, the tf algebra and the two OpenCV calls are
    used by tracking.cpp and defined elsewhere. *)
Class Collaborators : Type := {
  MIN_INLIERS : nat;
  MAX_INLIERS : nat;
  child_frame_id : Odometry -> string;
  frame_id : Image -> string;
  odomTotf : Odometry -> Transform;
  imgMsgToMat : Image -> Image -> Mat * Mat;
  getCameraModel : CameraInfo -> CameraInfo -> StereoCameraModel * Mat;
  tf_identity : Transform;
  tf_mul : Transform -> Transform -> Transform;
  tf_inverse : Transform -> Transform;
  newFrame : Mat -> Mat -> StereoCameraModel -> Frame;
  computeWorldPoints : Frame -> Frame;
  clusterWorldpoints : Frame -> Frame;
  emptyMat : Mat;                                     (* Mat() *)
  noKeyPoint : KeyPoint;
  noPoint3f : Point3f;
  knnMatch : Mat -> Mat -> nat -> Mat -> list (list DMatch);
  solvePnPRansac : PnPCall -> Mat * Mat * list nat    (* rvec, tvec, inliers *)
}.

Context {C : Collaborators}.

(** ** The members of [Tracking] *)

Record Tracking : Type := {
  state_ : trackingState;
  odom2camera_ : Transform;
  camera_model_ : StereoCameraModel;
  camera_matrix_ : Mat;
  f_frame_ : Frame;
  c_frame_ : Frame;
  matches_ : list DMatch;
  inliers_ : list nat;
  rvec_ : Mat;
  tvec_ : Mat;
  reset_fixed_frame_ : bool
}.

Definition set_state_ (v : trackingState) (t : Tracking) : Tracking :=
  {| state_ := v; odom2camera_ := odom2camera_ t;
     camera_model_ := camera_model_ t; camera_matrix_ := camera_matrix_ t;
     f_frame_ := f_frame_ t; c_frame_ := c_frame_ t; matches_ := matches_ t;
     inliers_ := inliers_ t; rvec_ := rvec_ t; tvec_ := tvec_ t;
     reset_fixed_frame_ := reset_fixed_frame_ t |}.

Definition set_odom2camera_ (v : Transform) (t : Tracking) : Tracking :=
  {| state_ := state_ t; odom2camera_ := v;
     camera_model_ := camera_model_ t; camera_matrix_ := camera_matrix_ t;
     f_frame_ := f_frame_ t; c_frame_ := c_frame_ t; matches_ := matches_ t;
     inliers_ := inliers_ t; rvec_ := rvec_ t; tvec_ := tvec_ t;
     reset_fixed_frame_ := reset_fixed_frame_ t |}.

Definition set_camera_ (m : StereoCameraModel) (k : Mat) (t : Tracking)
  : Tracking :=
  {| state_ := state_ t; odom2camera_ := odom2camera_ t;
     camera_model_ := m; camera_matrix_ := k;
     f_frame_ := f_frame_ t; c_frame_ := c_frame_ t; matches_ := matches_ t;
     inliers_ := inliers_ t; rvec_ := rvec_ t; tvec_ := tvec_ t;
     reset_fixed_frame_ := reset_fixed_frame_ t |}.

Definition set_f_frame_ (v : Frame) (t : Tracking) : Tracking :=
  {| state_ := state_ t; odom2camera_ := odom2camera_ t;
     camera_model_ := camera_model_ t; camera_matrix_ := camera_matrix_ t;
     f_frame_ := v; c_frame_ := c_frame_ t; matches_ := matches_ t;
     inliers_ := inliers_ t; rvec_ := rvec_ t; tvec_ := tvec_ t;
     reset_fixed_frame_ := reset_fixed_frame_ t |}.

Definition set_c_frame_ (v : Frame) (t : Tracking) : Tracking :=
  {| state_ := state_ t; odom2camera_ := odom2camera_ t;
     camera_model_ := camera_model_ t; camera_matrix_ := camera_matrix_ t;
     f_frame_ := f_frame_ t; c_frame_ := v; matches_ := matches_ t;
     inliers_ := inliers_ t; rvec_ := rvec_ t; tvec_ := tvec_ t;
     reset_fixed_frame_ := reset_fixed_frame_ t |}.

Definition set_matches_ (v : list DMatch) (t : Tracking) : Tracking :=
  {| state_ := state_ t; odom2camera_ := odom2camera_ t;
     camera_model_ := camera_model_ t; camera_matrix_ := camera_matrix_ t;
     f_frame_ := f_frame_ t; c_frame_ := c_frame_ t; matches_ := v;
     inliers_ := inliers_ t; rvec_ := rvec_ t; tvec_ := tvec_ t;
     reset_fixed_frame_ := reset_fixed_frame_ t |}.

Definition set_inliers_ (v : list nat) (t : Tracking) : Tracking :=
  {| state_ := state_ t; odom2camera_ := odom2camera_ t;
     camera_model_ := camera_model_ t; camera_matrix_ := camera_matrix_ t;
     f_frame_ := f_frame_ t; c_frame_ := c_frame_ t; matches_ := matches_ t;
     inliers_ := v; rvec_ := rvec_ t; tvec_ := tvec_ t;
     reset_fixed_frame_ := reset_fixed_frame_ t |}.

Definition set_pose_ (r t' : Mat) (t : Tracking) : Tracking :=
  {| state_ := state_ t; odom2camera_ := odom2camera_ t;
     camera_model_ := camera_model_ t; camera_matrix_ := camera_matrix_ t;
     f_frame_ := f_frame_ t; c_frame_ := c_frame_ t; matches_ := matches_ t;
     inliers_ := inliers_ t; rvec_ := r; tvec_ := t';
     reset_fixed_frame_ := reset_fixed_frame_ t |}.

Definition set_reset_fixed_frame_ (v : bool) (t : Tracking) : Tracking :=
  {| state_ := state_ t; odom2camera_ := odom2camera_ t;
     camera_model_ := camera_model_ t; camera_matrix_ := camera_matrix_ t;
     f_frame_ := f_frame_ t; c_frame_ := c_frame_ t; matches_ := matches_ t;
     inliers_ := inliers_ t; rvec_ := rvec_ t; tvec_ := tvec_ t;
     reset_fixed_frame_ := v |}.

(** ** Methods as commands: the new members and the calls made *)

Definition Cmd : Type := Tracking -> Tracking * list Event.

Definition andThen (a b : Cmd) : Cmd :=
  fun this =>
    let (this1, e1) := a this in
    let (this2, e2) := b this1 in
    (this2, e1 ++ e2).

Definition assign (f : Tracking -> Tracking) : Cmd :=
  fun this => (f this, []).

Definition call (e : Tracking -> Event) : Cmd :=
  fun this => (this, [e this]).

Definition ifThenElse (b : Tracking -> bool) (a c : Cmd) : Cmd :=
  fun this => if b this then a this else c this.

Notation "a ;; b" := (andThen a b) (at level 61, right associativity).

(** One synchronized message set, together with what the tf listener would
    answer while the callback runs ([None]: [tf::TransformException]). *)
Record Input : Type := {
  odom_msg : Odometry;
  l_img_msg : Image;
  r_img_msg : Image;
  l_info_msg : CameraInfo;
  r_info_msg : CameraInfo;
  tf_listener_ : string -> string -> option Transform
}.

(** [Tracking::getOdom2CameraTf], tracking.cpp:94-115.  [transform] is the
    reference parameter: the second component is its value on return. *)
Definition getOdom2CameraTf
  (listener : string -> string -> option Transform)
  (odom : Odometry) (img : Image) (transform : Transform)
  : bool * Transform * list Event :=
  let transform := tf_identity in
  let q := LookupTransform (child_frame_id odom) (frame_id img) in
  match listener (child_frame_id odom) (frame_id img) with
  | Some found => (true, found, [q])
  | None => (false, transform, [q; RosWarn])
  end.

(** *** Descriptor matching, tracking.cpp:130-143 *)

Definition knn : nat := 2.
Definition ratio : float := 0x1.ccccccccccccdp-1%float.  (* the double 0.9 *)

(** The body of the loop over [knn_matches] for one row. *)
Definition ratioStep (matches : list DMatch) (row : list DMatch)
  : list DMatch :=
  match row with
  | m0 :: m1 :: _ =>
      if (distance m0 <=? distance m1 * ratio)%float
      then matches ++ [m0]
      else matches
  | _ => matches
  end.

Definition ratioLoop (matches : list DMatch) (knn_matches : list (list DMatch))
  : list DMatch :=
  fold_left ratioStep knn_matches matches.

(** *** Gathering the matched points, tracking.cpp:152-160.
    [operator[]] out of range is undefined in C++; the matcher returns row
    numbers of its two arguments and a frame keeps keypoints, descriptors and
    points index-aligned, so the model reads a fixed filler there. *)
Definition gatherStep
  (f_kp : list KeyPoint) (f_points_3d c_points_3d : list Point3f)
  (acc : list Point2f * list Point3f * list Point3f) (m : DMatch)
  : list Point2f * list Point3f * list Point3f :=
  let '(f_matched_kp, f_matched_3d_points, c_matched_3d_points) := acc in
  (f_matched_kp ++ [pt (nth (trainIdx m) f_kp noKeyPoint)],
   f_matched_3d_points ++ [nth (trainIdx m) f_points_3d noPoint3f],
   c_matched_3d_points ++ [nth (queryIdx m) c_points_3d noPoint3f]).

Definition gatherLoop
  (f_kp : list KeyPoint) (f_points_3d c_points_3d : list Point3f)
  (matches : list DMatch)
  : list Point2f * list Point3f * list Point3f :=
  fold_left (gatherStep f_kp f_points_3d c_points_3d) matches ([], [], []).

(** The argument record of the solver call at tracking.cpp:168-171. *)
Definition pnpCall (this : Tracking) (c_matched_3d_points : list Point3f)
  (f_matched_kp : list Point2f) (use_guess : bool) : PnPCall :=
  {| objectPoints := c_matched_3d_points;
     imagePoints := f_matched_kp;
     cameraMatrix := camera_matrix_ this;
     distCoeffs := emptyMat;
     rvecIn := rvec_ this;
     tvecIn := tvec_ this;
     useExtrinsicGuess := use_guess;
     iterationsCount := 100;
     reprojectionError := 0x1.4cccccccccccdp+0%float;  (* the double 1.3 *)
     countParam := MAX_INLIERS |}.

(** [Tracking::trackCurrentFrame], tracking.cpp:117-175. *)
Definition trackCurrentFrame : Cmd :=
  assign (set_matches_ []) ;;
  assign (set_inliers_ []) ;;
  (fun this =>
     let f_desc := getLeftDesc (f_frame_ this) in
     let c_desc := getLeftDesc (c_frame_ this) in
     let f_kp := getLeftKp (f_frame_ this) in
     let f_points_3d := getCameraPoints (f_frame_ this) in
     let c_points_3d := getCameraPoints (c_frame_ this) in
     let match_mask := emptyMat in
     let knn_matches := knnMatch c_desc f_desc knn match_mask in
     let this := set_matches_ (ratioLoop (matches_ this) knn_matches) this in
     if length (matches_ this) <? MIN_INLIERS
     then (set_c_frame_ (setInliers 0 (c_frame_ this)) this, [])
     else
       let '(f_matched_kp, _, c_matched_3d_points) :=
         gatherLoop f_kp f_points_3d c_points_3d (matches_ this) in
       let use_guess := if reset_fixed_frame_ this then false else true in
       let args := pnpCall this c_matched_3d_points f_matched_kp use_guess in
       let '(rvec, tvec, inliers) := solvePnPRansac args in
       let this := set_inliers_ inliers (set_pose_ rvec tvec this) in
       (set_c_frame_ (setInliers (length (inliers_ this)) (c_frame_ this)) this,
        [SolvePnPRansac args])).

(** Lines 198-210 of [needNewFixedFrame]: the part after initialization. *)
Definition resetFixedFrame : Cmd :=
  ifThenElse (fun this => length (inliers_ this) <? MIN_INLIERS)
    (assign (set_reset_fixed_frame_ true) ;;
     assign (fun this => set_f_frame_ (c_frame_ this) this) ;;
     assign (fun this => set_f_frame_ (computeWorldPoints (f_frame_ this)) this) ;;
     assign (fun this => set_f_frame_ (clusterWorldpoints (f_frame_ this)) this) ;;
     call (fun this => MapAddPoints (f_frame_ this)))
    (assign (set_reset_fixed_frame_ false)).

(** [Tracking::needNewFixedFrame], tracking.cpp:177-212.  The [return] of
    line 185 is the branch that does not continue with [resetFixedFrame]. *)
Definition needNewFixedFrame : Cmd :=
  ifThenElse (fun this => trackingState_eqb (state_ this) INITIALIZING)
    (ifThenElse (fun this => length (inliers_ this) <? MIN_INLIERS)
       (assign (fun this => set_f_frame_ (c_frame_ this) this))
       (assign (fun this => set_f_frame_ (computeWorldPoints (f_frame_ this)) this) ;;
        assign (fun this => set_f_frame_ (clusterWorldpoints (f_frame_ this)) this) ;;
        call (fun this => MapAddPoints (f_frame_ this)) ;;
        assign (set_state_ WORKING) ;;
        resetFixedFrame))
    resetFixedFrame.

(** The frame built from a message set: constructor, then the odometry pose
    (tracking.cpp:71-75 and 82-86). *)
Definition stampedFrame (this : Tracking) (i : Input) : Frame :=
  let c_odom_robot := odomTotf (odom_msg i) in
  let (l_img, r_img) := imgMsgToMat (l_img_msg i) (r_img_msg i) in
  let c_odom_camera := tf_mul c_odom_robot (odom2camera_ this) in
  setOdometryPose c_odom_camera (newFrame l_img r_img (camera_model_ this)).

(** Lines 63-77 of [msgsCallback]: what follows a successful lookup. *)
Definition initialize (i : Input) : Cmd :=
  (fun this =>
     let (m, k) := getCameraModel (l_info_msg i) (r_info_msg i) in
     (set_camera_ m k this, [])) ;;
  call (fun this => GraphSetCamera2Odom (tf_inverse (odom2camera_ this))) ;;
  call (fun this => GraphSetCameraMatrix (camera_matrix_ this)) ;;
  assign (fun this => set_f_frame_ (stampedFrame this i) this) ;;
  assign (set_state_ INITIALIZING).

(** [Tracking::msgsCallback], tracking.cpp:42-92. *)
Definition msgsCallback (i : Input) : Cmd :=
  ifThenElse (fun this => trackingState_eqb (state_ this) NOT_INITIALIZED)
    (fun this =>
       let '(ok, transform, ev) :=
         getOdom2CameraTf (tf_listener_ i) (odom_msg i) (l_img_msg i)
                          (odom2camera_ this) in
       let this := set_odom2camera_ transform this in
       if negb ok then (this, ev ++ [RosWarn])
       else let (this', e) := initialize i this in (this', ev ++ e))
    (assign (fun this => set_c_frame_ (stampedFrame this i) this) ;;
     trackCurrentFrame ;;
     call (fun _ => PublisherUpdate) ;;
     needNewFixedFrame).

(** ** Sessions *)

(** The constructor (tracking.cpp:11-13) clears the reset flag, [run]
    (tracking.cpp:18) sets the state; the other members start as whatever
    their default constructors leave, here the argument. *)
Definition Tracking_new (members : Tracking) : Tracking :=
  set_reset_fixed_frame_ false members.

Definition run (this : Tracking) : Tracking :=
  set_state_ NOT_INITIALIZED this.

(** One callback of a session: members before, input, calls made, members
    after. *)
Record Cycle : Type := {
  before : Tracking;
  input : Input;
  events : list Event;
  after : Tracking
}.

Definition cycleOf (this : Tracking) (i : Input) : Cycle :=
  {| before := this; input := i;
     events := snd (msgsCallback i this);
     after := fst (msgsCallback i this) |}.

Fixpoint session (this : Tracking) (ins : list Input) : list Cycle :=
  match ins with
  | [] => []
  | i :: rest => cycleOf this i :: session (after (cycleOf this i)) rest
  end.

Definition finalState (this : Tracking) (ins : list Input) : Tracking :=
  fold_left (fun t i => after (cycleOf t i)) ins this.

(** ** Reading a list of calls *)

Definition solveCalls (ev : list Event) : list PnPCall :=
  flat_map (fun e => match e with SolvePnPRansac c => [c] | _ => [] end) ev.

Definition mapAdds (ev : list Event) : list Frame :=
  flat_map (fun e => match e with MapAddPoints f => [f] | _ => [] end) ev.

Definition lookups (ev : list Event) : list (string * string) :=
  flat_map (fun e => match e with LookupTransform a b => [(a, b)] | _ => [] end) ev.

Definition isGraphCall (e : Event) : bool :=
  match e with
  | GraphSetCamera2Odom _ | GraphSetCameraMatrix _ => true
  | _ => false
  end.

Definition isWarning (e : Event) : bool :=
  match e with RosWarn => true | _ => false end.

(** The correspondences [trackCurrentFrame] finds for a fixed frame [f] and a
    current frame [c]: [matches_] after the loop of tracking.cpp:138-143. *)
Definition cycleMatches (f c : Frame) : list DMatch :=
  ratioLoop [] (knnMatch (getLeftDesc c) (getLeftDesc f) knn emptyMat).

(** The point lists handed to the solver for correspondences [ms]: the
    current frame's 3D points at the query indices, the fixed frame's keypoint
    positions at the train indices. *)
Definition matchedObjectPoints (c : Frame) (ms : list DMatch) : list Point3f :=
  map (fun m => nth (queryIdx m) (getCameraPoints c) noPoint3f) ms.

Definition matchedImagePoints (f : Frame) (ms : list DMatch) : list Point2f :=
  map (fun m => pt (nth (trainIdx m) (getLeftKp f) noKeyPoint)) ms.

(** The solver call [trackCurrentFrame] makes from members [this] when it
    gets that far. *)
Definition solveArgs (this : Tracking) : PnPCall :=
  let ms := cycleMatches (f_frame_ this) (c_frame_ this) in
  pnpCall this (matchedObjectPoints (c_frame_ this) ms)
          (matchedImagePoints (f_frame_ this) ms)
          (negb (reset_fixed_frame_ this)).

(** The members when a tracking cycle calls [trackCurrentFrame]. *)
Definition entering (this : Tracking) (i : Input) : Tracking :=
  set_c_frame_ (stampedFrame this i) this.

(** What the tf listener answers for the frames named in a message set. *)
Definition lookupOf (i : Input) : option Transform :=
  tf_listener_ i (child_frame_id (odom_msg i)) (frame_id (l_img_msg i)).

(** A cycle that tracks (state past [NOT_INITIALIZED]) and the number of
    inliers it ends with, which is what [needNewFixedFrame] compares. *)
Definition tracks (c : Cycle) : bool :=
  negb (trackingState_eqb (state_ (before c)) NOT_INITIALIZED).

Definition cycleInliers (c : Cycle) : nat := length (inliers_ (after c)).


(** The order in which the states are visited. *)
Definition rank (s : trackingState) : nat :=
  match s with
  | NOT_INITIALIZED => 0
  | INITIALIZING => 1
  | WORKING => 2
  end.

(** The frames handed to the map over a run of cycles, oldest first, and the
    most recent of them. *)
Definition allAdds (cs : list Cycle) : list Frame :=
  flat_map (fun c => mapAdds (events c)) cs.

Definition lastAdded (fs : list Frame) : option Frame :=
  match rev fs with
  | [] => None
  | f :: _ => Some f
  end.

(** The graph calls of a run of cycles, oldest first. *)
Definition allGraphCalls (cs : list Cycle) : list Event :=
  flat_map (fun c => filter isGraphCall (events c)) cs.

(** Every correspondence indexes inside the current frame's points (query)
    and the fixed frame's keypoints (train). *)
Definition indicesInRange (f c : Frame) (ms : list DMatch) : bool :=
  forallb (fun m => (queryIdx m <? length (getCameraPoints c))
                    && (trainIdx m <? length (getLeftKp f))) ms.

End Model.

(** ** Hamming distances and the ratio test in the specification's words *)

(** The "BruteForce-Hamming" matcher reports a bit count; as a C [float] and
    then as a double it is that integer exactly. *)
Definition ofHamming (d : Z) : float := PrimFloat.of_uint63 (Uint63.of_Z d).

(** A neighbour with its distance as the bit count. *)
Record HMatch : Type := {
  hQuery : nat;
  hTrain : nat;
  hDist : Z
}.

Definition toDMatch (m : HMatch) : DMatch :=
  {| queryIdx := hQuery m; trainIdx := hTrain m;
     distance := ofHamming (hDist m) |}.




(** Bit counts up to [maxHamming] are covered by the exhaustive comparison of
    the double-precision test with the rational one. *)
Definition maxHamming : Z := 512.

Fixpoint upto (n : nat) : list Z :=
  match n with
  | O => [0%Z]
  | S k => Z.of_nat n :: upto k
  end.

Definition ratioTable (n : nat) : bool :=
  let r := upto n in
  forallb (fun d2 =>
    forallb (fun d1 =>
      Bool.eqb (ofHamming d1 <=? ofHamming d2 * ratio)%float
               (10 * d1 <=? 9 * d2)%Z) r) r.


(** ** A synthetic instance

    Small stand-ins for the collaborators, on which sessions can be run: a
    left image is its list of descriptor values, a right image the list of
    point coordinates; a transform is a translation along one axis. *)
Module Synthetic.

Definition types : SlamTypes :=
  {| Odometry := Z; Image := list Z; CameraInfo := Z; Mat := list Z;
     Point2f := Z; Point3f := Z; Transform := Z; StereoCameraModel := Z |}.

Definition frame (desc pts : list Z) : Frame (T := types) :=
  @Build_Frame types desc (map (@Build_KeyPoint types) pts) pts 0%Z 0 [].

(** World points: the camera points moved by the frame's pose. *)
Definition worldPoints (f : Frame (T := types)) : Frame (T := types) :=
  @Build_Frame types (getLeftDesc f) (getLeftKp f) (getCameraPoints f)
    (getOdometryPose f) (getInliers f)
    (map (fun p : Z => (p + getOdometryPose f)%Z) (getCameraPoints f)).

(** Clustering: equal world points are merged. *)
Definition cluster (f : Frame (T := types)) : Frame (T := types) :=
  @Build_Frame types (getLeftDesc f) (getLeftKp f) (getCameraPoints f)
    (getOdometryPose f) (getInliers f)
    (nodup Z.eq_dec (getWorldPoints f : list Z)).

(** Two neighbours per query descriptor when the train set has two rows: the
    first at the distance the descriptor value names, the second at 10. *)
Definition neighbours (c f : list Z) (k : nat) (mask : list Z)
  : list (list DMatch) :=
  map (fun q =>
         firstn (Nat.min k (length f))
           [ {| queryIdx := q; trainIdx := 0;
                distance := ofHamming (nth q c 0%Z) |};
             {| queryIdx := q; trainIdx := 1; distance := ofHamming 10 |} ])
      (seq 0 (length c)).

(** A solve whose inliers are the positions where object and image point
    agree; it returns the object points as rotation and the image points as
    translation. *)
Fixpoint agreeing (i : nat) (obj img : list Z) : list nat :=
  match obj, img with
  | o :: obj', m :: img' =>
      if (o =? m)%Z then i :: agreeing (S i) obj' img'
      else agreeing (S i) obj' img'
  | _, _ => []
  end.

Definition solve (a : PnPCall (T := types)) : list Z * list Z * list nat :=
  (objectPoints a, imagePoints a,
   agreeing 0 (objectPoints a) (imagePoints a)).

Definition collab : Collaborators (T := types) :=
  @Build_Collaborators types
    30 60
    (fun _ : Z => "base_link"%string)
    (fun _ : list Z => "camera"%string)
    (fun o : Z => o)
    (fun l r : list Z => (l, r))
    (fun l r : Z => (l, [l; r]))
    0%Z Z.add Z.opp
    (fun (l r : list Z) (_ : Z) => frame l r)
    worldPoints cluster
    (@nil Z)
    (@Build_KeyPoint types 0%Z)
    0%Z
    neighbours
    solve.

(** Members as the default constructors might leave them. *)
Definition members : Tracking (T := types) :=
  @Build_Tracking types WORKING 5%Z 0%Z [] (frame [] []) (frame [] [])
    [] [] [] [] true.

Definition started : Tracking (T := types) :=
  run (Tracking_new members).

(** A message set: odometry, the two images, whether tf resolves. *)
Definition message (odom : Z) (l r : list Z) (tf : option Z)
  : Input (T := types) :=
  @Build_Input types odom l r 1%Z 2%Z (fun _ _ => tf).

(** Forty features that all match and all sit at coordinate [p]. *)
Definition view (odom p : Z) : Input (T := types) :=
  message odom (repeat 0%Z 40) (repeat p 40) (Some 3%Z).

(** Five features only: fewer matches than [MIN_INLIERS]. *)
Definition sparseView (odom p : Z) : Input (T := types) :=
  message odom (repeat 0%Z 5) (repeat p 5) (Some 3%Z).

Definition unresolved (odom p : Z) : Input (T := types) :=
  message odom (repeat 0%Z 40) (repeat p 40) None.

Definition play (this : Tracking (T := types)) (ins : list (Input (T := types)))
  : list (Cycle (T := types) ) :=
  session (C := collab) this ins.

(** Two states of a synthetic session: after the first view, and after a
    second view of the same scene. *)
Definition bootstrapped : Tracking (T := types) :=
  finalState (C := collab) started [view 0 7].

Definition working : Tracking (T := types) :=
  finalState (C := collab) started [view 0 7; view 1 7].

Definition hm (q t : nat) (d : Z) : HMatch :=
  {| hQuery := q; hTrain := t; hDist := d |}.

(** Neighbour rows: two at the boundary of the ratio test, one beyond it, one
    with a single neighbour. *)
Definition rows : list (list HMatch) :=
  [ [hm 0 0 9; hm 0 1 10];
    [hm 1 0 18; hm 1 1 20];
    [hm 2 0 10; hm 2 1 10];
    [hm 3 5 1] ].

End Synthetic.

(** * Properties *)

(** ** The ratio test on Hamming distances *)

Lemma upto_complete (n : nat) (d : Z) :
  (0 <= d <= Z.of_nat n)%Z -> In d (upto n).
Proof.
  induction n as [|k IH]; intros Hd.
  - simpl. left. simpl in Hd. lia.
  - destruct (Z.eq_dec d (Z.of_nat (S k))) as [->|Hne].
    + left; reflexivity.
    + right. apply IH. lia.
Qed.

Lemma ratioTable_holds : ratioTable (Z.to_nat maxHamming) = true.
Proof. vm_compute. reflexivity. Qed.

Lemma ratioTable_sound (n : nat) (d1 d2 : Z) :
  ratioTable n = true ->
  In d1 (upto n) -> In d2 (upto n) ->
  (ofHamming d1 <=? ofHamming d2 * ratio)%float = (10 * d1 <=? 9 * d2)%Z.
Proof.
  intros Htab In1 In2.
  unfold ratioTable in Htab.
  rewrite forallb_forall in Htab.
  specialize (Htab d2 In2).
  rewrite forallb_forall in Htab.
  specialize (Htab d1 In1).
  apply Bool.eqb_prop in Htab. exact Htab.
Qed.

(** On bit counts the double-precision comparison of tracking.cpp:141 is the
    integer comparison [10 * d1 <= 9 * d2]. *)
Lemma float_test_exact (d1 d2 : Z) :
  (0 <= d1 <= maxHamming)%Z -> (0 <= d2 <= maxHamming)%Z ->
  (ofHamming d1 <=? ofHamming d2 * ratio)%float = (10 * d1 <=? 9 * d2)%Z.
Proof.
  intros H1 H2.
  apply (ratioTable_sound (Z.to_nat maxHamming) d1 d2 ratioTable_holds);
    apply upto_complete; rewrite Z2Nat.id; unfold maxHamming in *; lia.
Qed.


Lemma ratioStep_app (acc : list DMatch) (row : list DMatch) :
  ratioStep acc row = acc ++ ratioStep [] row.
Proof.
  unfold ratioStep.
  destruct row as [|m0 [|m1 rest]]; simpl; try (now rewrite app_nil_r).
  destruct (distance m0 <=? distance m1 * ratio)%float; simpl;
    [reflexivity | now rewrite app_nil_r].
Qed.

(** The loop appends, row by row, what each row contributes on its own. *)
Lemma ratioLoop_flat_map (rows : list (list DMatch)) (acc : list DMatch) :
  ratioLoop acc rows = acc ++ flat_map (ratioStep []) rows.
Proof.
  unfold ratioLoop. revert acc.
  induction rows as [|row rows IH]; intros acc; simpl.
  - now rewrite app_nil_r.
  - rewrite IH, (ratioStep_app acc row), <- app_assoc. reflexivity.
Qed.



(** ** One cycle *)

Section CycleFacts.

Context {T : SlamTypes} {C : Collaborators}.

Lemma state_neq_eqb (s : trackingState) :
  s <> NOT_INITIALIZED -> trackingState_eqb s NOT_INITIALIZED = false.
Proof. destruct s; intros H; try reflexivity; now elim H. Qed.

Lemma gatherLoop_acc (f_kp : list KeyPoint) (f3 c3 : list Point3f)
      (ms : list DMatch) (a : list Point2f) (b c : list Point3f) :
  fold_left (gatherStep f_kp f3 c3) ms (a, b, c)
  = (a ++ map (fun m => pt (nth (trainIdx m) f_kp noKeyPoint)) ms,
     b ++ map (fun m => nth (trainIdx m) f3 noPoint3f) ms,
     c ++ map (fun m => nth (queryIdx m) c3 noPoint3f) ms).
Proof.
  revert a b c.
  induction ms as [|m ms IH]; intros a b c; simpl.
  - now rewrite !app_nil_r.
  - rewrite IH, <- !app_assoc. reflexivity.
Qed.

Lemma gatherLoop_map (f c : Frame) (ms : list DMatch) :
  gatherLoop (getLeftKp f) (getCameraPoints f) (getCameraPoints c) ms
  = (matchedImagePoints f ms,
     map (fun m => nth (trainIdx m) (getCameraPoints f) noPoint3f) ms,
     matchedObjectPoints c ms).
Proof. unfold gatherLoop. now rewrite gatherLoop_acc. Qed.

(** The short circuit of tracking.cpp:146-149. *)
Lemma trackCurrentFrame_sparse (this : Tracking) :
  length (cycleMatches (f_frame_ this) (c_frame_ this)) < MIN_INLIERS ->
  trackCurrentFrame this
  = (set_c_frame_ (setInliers 0 (c_frame_ this))
       (set_matches_ (cycleMatches (f_frame_ this) (c_frame_ this))
          (set_inliers_ [] this)),
     []).
Proof.
  intros Hlt. apply Nat.ltb_lt in Hlt.
  unfold trackCurrentFrame, andThen, assign. cbn -[Nat.ltb gatherLoop ratioLoop].
  fold (cycleMatches (f_frame_ this) (c_frame_ this)).
  rewrite Hlt. reflexivity.
Qed.

(** The solve of tracking.cpp:150-174. *)
Lemma trackCurrentFrame_solve (this : Tracking) :
  MIN_INLIERS <= length (cycleMatches (f_frame_ this) (c_frame_ this)) ->
  trackCurrentFrame this
  = (let r := solvePnPRansac (solveArgs this) in
     set_c_frame_ (setInliers (length (snd r)) (c_frame_ this))
       (set_inliers_ (snd r)
          (set_pose_ (fst (fst r)) (snd (fst r))
             (set_matches_ (cycleMatches (f_frame_ this) (c_frame_ this))
                this))),
     [SolvePnPRansac (solveArgs this)]).
Proof.
  intros Hge. apply Nat.ltb_ge in Hge.
  unfold trackCurrentFrame, andThen, assign. cbn -[Nat.ltb gatherLoop ratioLoop].
  fold (cycleMatches (f_frame_ this) (c_frame_ this)).
  rewrite Hge, gatherLoop_map.
  unfold solveArgs, pnpCall. cbn -[Nat.ltb gatherLoop ratioLoop].
  destruct (reset_fixed_frame_ this); cbn -[Nat.ltb gatherLoop ratioLoop];
    match goal with
    | |- context [solvePnPRansac ?a] => destruct (solvePnPRansac a) as [[r t] inl]
    end; reflexivity.
Qed.

(** A tracking cycle is: build the current frame, track, publish, decide. *)
Lemma msgsCallback_tracking (this : Tracking) (i : Input) :
  state_ this <> NOT_INITIALIZED ->
  msgsCallback i this
  = (fst (needNewFixedFrame (fst (trackCurrentFrame (entering this i)))),
     snd (trackCurrentFrame (entering this i))
       ++ PublisherUpdate
       :: snd (needNewFixedFrame (fst (trackCurrentFrame (entering this i))))).
Proof.
  intros Hs. unfold msgsCallback, ifThenElse.
  rewrite (state_neq_eqb Hs).
  unfold andThen, assign, call, entering.
  destruct (trackCurrentFrame (set_c_frame_ (stampedFrame this i) this))
    as [this2 e2]. cbn [fst snd].
  destruct (needNewFixedFrame this2) as [this3 e3]. reflexivity.
Qed.

End CycleFacts.

Section PolicyFacts.

Context {T : SlamTypes} {C : Collaborators}.

Lemma needNewFixedFrame_bootstrap (this : Tracking) :
  state_ this = INITIALIZING ->
  length (inliers_ this) < MIN_INLIERS ->
  needNewFixedFrame this = (set_f_frame_ (c_frame_ this) this, []).
Proof.
  intros Hs Hlt. apply Nat.ltb_lt in Hlt.
  unfold needNewFixedFrame, ifThenElse, assign.
  rewrite Hs. cbn -[Nat.ltb]. rewrite Hlt. reflexivity.
Qed.

Lemma needNewFixedFrame_promote (this : Tracking) :
  state_ this = INITIALIZING ->
  MIN_INLIERS <= length (inliers_ this) ->
  needNewFixedFrame this
  = (set_reset_fixed_frame_ false
       (set_state_ WORKING
          (set_f_frame_
             (clusterWorldpoints (computeWorldPoints (f_frame_ this))) this)),
     [MapAddPoints (clusterWorldpoints (computeWorldPoints (f_frame_ this)))]).
Proof.
  intros Hs Hge. apply Nat.ltb_ge in Hge.
  unfold needNewFixedFrame, resetFixedFrame, ifThenElse, andThen, assign, call.
  rewrite Hs. cbn -[Nat.ltb]. rewrite Hge. cbn -[Nat.ltb]. rewrite ?Hge.
  reflexivity.
Qed.

Lemma needNewFixedFrame_replace (this : Tracking) :
  state_ this = WORKING ->
  length (inliers_ this) < MIN_INLIERS ->
  needNewFixedFrame this
  = (set_f_frame_ (clusterWorldpoints (computeWorldPoints (c_frame_ this)))
       (set_reset_fixed_frame_ true this),
     [MapAddPoints (clusterWorldpoints (computeWorldPoints (c_frame_ this)))]).
Proof.
  intros Hs Hlt. apply Nat.ltb_lt in Hlt.
  unfold needNewFixedFrame, resetFixedFrame, ifThenElse, andThen, assign, call.
  rewrite Hs. cbn -[Nat.ltb]. rewrite Hlt. reflexivity.
Qed.

Lemma needNewFixedFrame_keep (this : Tracking) :
  state_ this = WORKING ->
  MIN_INLIERS <= length (inliers_ this) ->
  needNewFixedFrame this = (set_reset_fixed_frame_ false this, []).
Proof.
  intros Hs Hge. apply Nat.ltb_ge in Hge.
  unfold needNewFixedFrame, resetFixedFrame, ifThenElse, andThen, assign, call.
  rewrite Hs. cbn -[Nat.ltb]. rewrite Hge. reflexivity.
Qed.

(** What [trackCurrentFrame] leaves alone, and how the current frame's
    inlier count follows [inliers_]. *)
Lemma trackCurrentFrame_frame (this : Tracking) :
  let this' := fst (trackCurrentFrame this) in
  state_ this' = state_ this
  /\ f_frame_ this' = f_frame_ this
  /\ reset_fixed_frame_ this' = reset_fixed_frame_ this
  /\ odom2camera_ this' = odom2camera_ this
  /\ camera_model_ this' = camera_model_ this
  /\ camera_matrix_ this' = camera_matrix_ this
  /\ c_frame_ this' = setInliers (length (inliers_ this')) (c_frame_ this).
Proof.
  destruct (Nat.lt_ge_cases
              (length (cycleMatches (f_frame_ this) (c_frame_ this)))
              MIN_INLIERS) as [Hlt|Hge].
  - rewrite (trackCurrentFrame_sparse this Hlt). cbn. repeat split.
  - rewrite (trackCurrentFrame_solve this Hge). cbn. repeat split.
Qed.

(** The calls of [trackCurrentFrame]: none, or the one solve. *)
Lemma trackCurrentFrame_events (this : Tracking) :
  snd (trackCurrentFrame this)
  = if length (cycleMatches (f_frame_ this) (c_frame_ this)) <? MIN_INLIERS
    then [] else [SolvePnPRansac (solveArgs this)].
Proof.
  destruct (Nat.lt_ge_cases
              (length (cycleMatches (f_frame_ this) (c_frame_ this)))
              MIN_INLIERS) as [Hlt|Hge].
  - rewrite (trackCurrentFrame_sparse this Hlt).
    apply Nat.ltb_lt in Hlt. now rewrite Hlt.
  - rewrite (trackCurrentFrame_solve this Hge).
    apply Nat.ltb_ge in Hge. now rewrite Hge.
Qed.

(** [needNewFixedFrame] only ever calls the map. *)
Lemma needNewFixedFrame_events (this : Tracking) :
  snd (needNewFixedFrame this)
  = map MapAddPoints (mapAdds (snd (needNewFixedFrame this))).
Proof.
  unfold needNewFixedFrame, resetFixedFrame, ifThenElse, andThen, assign, call.
  destruct (trackingState_eqb (state_ this) INITIALIZING);
    cbn -[Nat.ltb];
    destruct (length (inliers_ this) <? MIN_INLIERS) eqn:E;
    cbn -[Nat.ltb]; try rewrite E; reflexivity.
Qed.

Lemma needNewFixedFrame_frame (this : Tracking) :
  let this' := fst (needNewFixedFrame this) in
  odom2camera_ this' = odom2camera_ this
  /\ camera_model_ this' = camera_model_ this
  /\ camera_matrix_ this' = camera_matrix_ this
  /\ c_frame_ this' = c_frame_ this
  /\ inliers_ this' = inliers_ this
  /\ matches_ this' = matches_ this
  /\ rvec_ this' = rvec_ this
  /\ tvec_ this' = tvec_ this.
Proof.
  unfold needNewFixedFrame, resetFixedFrame, ifThenElse, andThen, assign, call.
  destruct (trackingState_eqb (state_ this) INITIALIZING);
    cbn -[Nat.ltb];
    destruct (length (inliers_ this) <? MIN_INLIERS) eqn:E;
    cbn -[Nat.ltb]; try rewrite E; cbn; repeat split.
Qed.

End PolicyFacts.

Section CycleClaims.

Context {T : SlamTypes} {C : Collaborators}.

Lemma map_adds_only (l : list Frame) :
  solveCalls (map MapAddPoints l) = []
  /\ filter isWarning (map MapAddPoints l) = []
  /\ lookups (map MapAddPoints l) = []
  /\ filter isGraphCall (map MapAddPoints l) = []
  /\ mapAdds (map MapAddPoints l) = l.
Proof.
  induction l as [|f l (Hs & Hw & Hl & Hg & Hm)]; simpl.
  - repeat split.
  - rewrite Hm. repeat split; assumption.
Qed.

Lemma in_solveCalls (a : PnPCall) (ev : list Event) :
  In (SolvePnPRansac a) ev <-> In a (solveCalls ev).
Proof.
  unfold solveCalls. rewrite in_flat_map. split.
  - intros H. exists (SolvePnPRansac a). split; [exact H | now left].
  - intros (e & He & Ha). destruct e; simpl in Ha; try contradiction.
    destruct Ha as [->|[]]. exact He.
Qed.

(** The members after a tracking cycle and the calls it made. *)
Lemma cycle_after (this : Tracking) (i : Input) :
  state_ this <> NOT_INITIALIZED ->
  after (cycleOf this i)
  = fst (needNewFixedFrame (fst (trackCurrentFrame (entering this i)))).
Proof.
  intros Hs. unfold cycleOf. cbn [after].
  now rewrite (msgsCallback_tracking this i Hs).
Qed.

Lemma cycle_events (this : Tracking) (i : Input) :
  state_ this <> NOT_INITIALIZED ->
  events (cycleOf this i)
  = snd (trackCurrentFrame (entering this i))
      ++ PublisherUpdate
      :: snd (needNewFixedFrame (fst (trackCurrentFrame (entering this i)))).
Proof.
  intros Hs. unfold cycleOf. cbn [events].
  now rewrite (msgsCallback_tracking this i Hs).
Qed.

Lemma cycle_solveCalls (this : Tracking) (i : Input) :
  state_ this <> NOT_INITIALIZED ->
  solveCalls (events (cycleOf this i))
  = if length (cycleMatches (f_frame_ this) (stampedFrame this i))
         <? MIN_INLIERS
    then [] else [solveArgs (entering this i)].
Proof.
  intros Hs. rewrite (cycle_events this i Hs).
  unfold solveCalls at 1. rewrite flat_map_app. cbn [flat_map].
  fold (solveCalls (snd (trackCurrentFrame (entering this i)))).
  fold (solveCalls
          (snd (needNewFixedFrame (fst (trackCurrentFrame (entering this i)))))).
  rewrite needNewFixedFrame_events.
  rewrite (proj1 (map_adds_only _)), app_nil_r.
  rewrite trackCurrentFrame_events. cbn [entering f_frame_ c_frame_ set_c_frame_].
  destruct (length (cycleMatches (f_frame_ this) (stampedFrame this i))
              <? MIN_INLIERS); reflexivity.
Qed.

(** The members a tracking cycle's policy step starts from. *)
Lemma cycle_tracked (this : Tracking) (i : Input) :
  state_ this <> NOT_INITIALIZED ->
  let mid := fst (trackCurrentFrame (entering this i)) in
  let c := cycleOf this i in
  state_ mid = state_ this
  /\ f_frame_ mid = f_frame_ this
  /\ reset_fixed_frame_ mid = reset_fixed_frame_ this
  /\ inliers_ mid = inliers_ (after c)
  /\ c_frame_ mid = c_frame_ (after c)
  /\ c_frame_ (after c) = setInliers (cycleInliers c) (stampedFrame this i).
Proof.
  intros Hs mid c.
  pose proof (trackCurrentFrame_frame (entering this i))
    as (H1 & H2 & H3 & _ & _ & _ & H7).
  pose proof (needNewFixedFrame_frame mid) as (_ & _ & _ & K4 & K5 & _).
  unfold c, cycleInliers. rewrite (cycle_after this i Hs).
  fold mid. fold mid in H1, H2, H3, H7, K4, K5.
  rewrite K4, K5. cbn [entering set_c_frame_ state_ f_frame_ c_frame_
                       reset_fixed_frame_] in *.
  repeat split; assumption.
Qed.

(** C5.  A tracking cycle whose accepted correspondences are fewer than
    [MIN_INLIERS] never calls the pose solver and sets the current frame's
    inlier count to 0, whatever points the two frames hold; nothing is
    reported: no warning is logged and the cycle goes on to the publisher and
    the fixed-frame policy. *)
Theorem sparse_short_circuit (this : Tracking) (i : Input) :
  state_ this <> NOT_INITIALIZED ->
  length (cycleMatches (f_frame_ this) (stampedFrame this i)) < MIN_INLIERS ->
  let c := cycleOf this i in
  solveCalls (events c) = []
  /\ filter isWarning (events c) = []
  /\ events c = PublisherUpdate :: map MapAddPoints (mapAdds (events c))
  /\ inliers_ (after c) = []
  /\ c_frame_ (after c) = setInliers 0 (stampedFrame this i)
  /\ getInliers (c_frame_ (after c)) = 0.
Proof.
  intros Hs Hlt c.
  pose proof (cycle_tracked this i Hs) as (_ & _ & _ & Hin & Hc & _).
  pose proof (cycle_solveCalls this i Hs) as Hcalls.
  pose proof (cycle_events this i Hs) as Hev.
  fold c in Hin, Hc, Hcalls, Hev.
  rewrite (trackCurrentFrame_sparse (entering this i) Hlt) in Hin, Hc, Hev.
  cbn [fst snd app] in Hin, Hc, Hev.
  rewrite needNewFixedFrame_events in Hev.
  apply Nat.ltb_lt in Hlt. rewrite Hlt in Hcalls.
  split; [exact Hcalls|].
  split; [rewrite Hev; cbn [filter isWarning];
          apply (map_adds_only _)|].
  split.
  { rewrite Hev at 2. cbn [mapAdds flat_map app].
    fold (mapAdds (map MapAddPoints
            (mapAdds (snd (needNewFixedFrame
               (set_c_frame_ (setInliers 0 (c_frame_ (entering this i)))
                  (set_matches_
                     (cycleMatches (f_frame_ (entering this i))
                        (c_frame_ (entering this i)))
                     (set_inliers_ [] (entering this i))))))))).
    rewrite (proj2 (proj2 (proj2 (proj2 (map_adds_only _))))).
    exact Hev. }
  rewrite <- Hin, <- Hc. cbn. repeat split.
Qed.

Lemma cycle_mapAdds (this : Tracking) (i : Input) :
  state_ this <> NOT_INITIALIZED ->
  mapAdds (events (cycleOf this i))
  = mapAdds (snd (needNewFixedFrame (fst (trackCurrentFrame (entering this i))))).
Proof.
  intros Hs. rewrite (cycle_events this i Hs).
  unfold mapAdds at 1. rewrite flat_map_app. cbn [flat_map app].
  rewrite trackCurrentFrame_events.
  destruct (length (cycleMatches (f_frame_ (entering this i))
                                 (c_frame_ (entering this i)))
              <? MIN_INLIERS); reflexivity.
Qed.

(** The four outcomes of the fixed-frame policy after a tracking cycle, by
    state and by the cycle's inlier count. *)
Lemma cycle_policy (this : Tracking) (i : Input) :
  state_ this <> NOT_INITIALIZED ->
  let c := cycleOf this i in
  let n := cycleInliers c in
  let cur := c_frame_ (after c) in
  let grown := fun f => clusterWorldpoints (computeWorldPoints f) in
  (state_ this = INITIALIZING -> n < MIN_INLIERS ->
     state_ (after c) = INITIALIZING /\ f_frame_ (after c) = cur
     /\ reset_fixed_frame_ (after c) = reset_fixed_frame_ this
     /\ mapAdds (events c) = [])
  /\ (state_ this = INITIALIZING -> MIN_INLIERS <= n ->
     state_ (after c) = WORKING /\ f_frame_ (after c) = grown (f_frame_ this)
     /\ reset_fixed_frame_ (after c) = false
     /\ mapAdds (events c) = [grown (f_frame_ this)])
  /\ (state_ this = WORKING -> n < MIN_INLIERS ->
     state_ (after c) = WORKING /\ f_frame_ (after c) = grown cur
     /\ reset_fixed_frame_ (after c) = true
     /\ mapAdds (events c) = [grown cur])
  /\ (state_ this = WORKING -> MIN_INLIERS <= n ->
     state_ (after c) = WORKING /\ f_frame_ (after c) = f_frame_ this
     /\ reset_fixed_frame_ (after c) = false
     /\ mapAdds (events c) = []).
Proof.
  intros Hs c n cur grown.
  pose proof (cycle_tracked this i Hs) as (H1 & H2 & H3 & H4 & H5 & _).
  pose proof (cycle_mapAdds this i Hs) as Hadds.
  pose proof (cycle_after this i Hs) as Hafter.
  fold c in H4, H5, Hadds, Hafter.
  unfold n, cycleInliers, cur. rewrite <- H4, <- H5.
  rewrite Hadds, Hafter. clear Hadds Hafter H4 H5.
  remember (fst (trackCurrentFrame (entering this i))) as mid eqn:Emid.
  clear Emid.
  split; [|split; [|split]]; intros Hst Hn; rewrite <- H1 in Hst.
  all: try (rewrite (needNewFixedFrame_bootstrap mid Hst Hn));
       try (rewrite (needNewFixedFrame_promote mid Hst Hn));
       try (rewrite (needNewFixedFrame_replace mid Hst Hn));
       try (rewrite (needNewFixedFrame_keep mid Hst Hn));
       cbn; rewrite <- ?H2, <- ?H3; repeat split; try reflexivity; assumption.
Qed.

(** Every solve of a tracking cycle is the one call built from the members
    the cycle starts with. *)
Lemma cycle_solve_inversion (this : Tracking) (i : Input) (a : PnPCall) :
  state_ this <> NOT_INITIALIZED ->
  In a (solveCalls (events (cycleOf this i))) ->
  MIN_INLIERS <= length (cycleMatches (f_frame_ this) (stampedFrame this i))
  /\ a = solveArgs (entering this i)
  /\ solveCalls (events (cycleOf this i)) = [a].
Proof.
  intros Hs Hin. rewrite (cycle_solveCalls this i Hs) in *.
  destruct (length (cycleMatches (f_frame_ this) (stampedFrame this i))
              <? MIN_INLIERS) eqn:E.
  - destruct Hin.
  - apply Nat.ltb_ge in E. destruct Hin as [<-|[]]. repeat split. exact E.
Qed.

(** C8.  Whenever a tracking cycle runs the pose solver, the call has the
    current frame's 3D points at the matches' query indices as object points
    and the fixed frame's keypoint positions at the matches' train indices as
    image points, the tracker's camera matrix, 100 iterations, reprojection
    error 1.3 and [MAX_INLIERS] as its inlier-count parameter; it is the only
    solve of the cycle, and the current frame's inlier count becomes the size
    of the inlier set the solver returns. *)
Theorem solve_call_arguments (this : Tracking) (i : Input) (a : PnPCall) :
  state_ this <> NOT_INITIALIZED ->
  In (SolvePnPRansac a) (events (cycleOf this i)) ->
  let c := cycleOf this i in
  let ms := cycleMatches (f_frame_ this) (stampedFrame this i) in
  objectPoints a
    = map (fun m => nth (queryIdx m) (getCameraPoints (stampedFrame this i))
                        noPoint3f) ms
  /\ imagePoints a
    = map (fun m => pt (nth (trainIdx m) (getLeftKp (f_frame_ this))
                            noKeyPoint)) ms
  /\ cameraMatrix a = camera_matrix_ this
  /\ iterationsCount a = 100
  /\ reprojectionError a = 0x1.4cccccccccccdp+0%float
  /\ countParam a = MAX_INLIERS
  /\ solveCalls (events c) = [a]
  /\ inliers_ (after c) = snd (solvePnPRansac a)
  /\ getInliers (c_frame_ (after c)) = length (snd (solvePnPRansac a)).
Proof.
  intros Hs Hin c ms.
  apply in_solveCalls in Hin.
  destruct (cycle_solve_inversion this i a Hs Hin) as (Hge & Ha & Hone).
  subst a.
  pose proof (cycle_tracked this i Hs) as (_ & _ & _ & H4 & H5 & _).
  fold c in H4, H5, Hone.
  rewrite (trackCurrentFrame_solve (entering this i) Hge) in H4, H5.
  cbn [fst] in H4, H5.
  rewrite <- H4, <- H5.
  repeat split; try reflexivity. exact Hone.
Qed.

(** C1 (as the code has it).  After a tracking cycle with inlier count [n]
    the current-frame member is the frame built from the input carrying [n].
    If [n < MIN_INLIERS] the fixed frame becomes that frame: as it is while
    INITIALIZING, and with its world points computed and clustered while
    WORKING.  If [n >= MIN_INLIERS] the fixed frame is the previous one:
    untouched while WORKING, and with its world points computed and clustered
    on the cycle that leaves INITIALIZING. *)
Theorem fixed_frame_policy (this : Tracking) (i : Input) :
  state_ this <> NOT_INITIALIZED ->
  let c := cycleOf this i in
  let n := cycleInliers c in
  let cur := setInliers n (stampedFrame this i) in
  c_frame_ (after c) = cur
  /\ (n < MIN_INLIERS ->
        (state_ this = INITIALIZING -> f_frame_ (after c) = cur)
        /\ (state_ this = WORKING ->
              f_frame_ (after c)
                = clusterWorldpoints (computeWorldPoints cur)))
  /\ (MIN_INLIERS <= n ->
        (state_ this = WORKING -> f_frame_ (after c) = f_frame_ this)
        /\ (state_ this = INITIALIZING ->
              f_frame_ (after c)
                = clusterWorldpoints (computeWorldPoints (f_frame_ this)))).
Proof.
  intros Hs c n cur.
  pose proof (cycle_tracked this i Hs) as (_ & _ & _ & _ & _ & Hcur).
  pose proof (cycle_policy this i Hs) as (P1 & P2 & P3 & P4).
  fold c in Hcur, P1, P2, P3, P4. fold n in Hcur, P1, P2, P3, P4.
  fold cur in Hcur. rewrite Hcur in P1, P3.
  split; [exact Hcur|]. split; intros Hn; split; intros Hst.
  - apply (P1 Hst Hn).
  - apply (P3 Hst Hn).
  - apply (P4 Hst Hn).
  - apply (P2 Hst Hn).
Qed.

(** C9.  On the cycle that takes the state from INITIALIZING to WORKING the
    inlier threshold was met, the fixed frame is the previous fixed frame with
    its world points computed and clustered, that frame is the one and only
    frame handed to the map, and the cycle's current frame stays the current
    frame. *)
Theorem promotion_grows_fixed_frame (this : Tracking) (i : Input) :
  state_ this = INITIALIZING ->
  state_ (after (cycleOf this i)) = WORKING ->
  let c := cycleOf this i in
  MIN_INLIERS <= cycleInliers c
  /\ f_frame_ (after c)
     = clusterWorldpoints (computeWorldPoints (f_frame_ this))
  /\ mapAdds (events c)
     = [clusterWorldpoints (computeWorldPoints (f_frame_ this))]
  /\ c_frame_ (after c) = setInliers (cycleInliers c) (stampedFrame this i).
Proof.
  intros Hst Hw c.
  assert (Hs : state_ this <> NOT_INITIALIZED) by (rewrite Hst; discriminate).
  pose proof (cycle_tracked this i Hs) as (_ & _ & _ & _ & _ & Hcur).
  pose proof (cycle_policy this i Hs) as (P1 & P2 & _ & _).
  fold c in Hcur, P1, P2, Hw.
  destruct (Nat.lt_ge_cases (cycleInliers c) MIN_INLIERS) as [Hlt|Hge].
  - destruct (P1 Hst Hlt) as (Hinit & _). rewrite Hinit in Hw. discriminate.
  - destruct (P2 Hst Hge) as (_ & Hf & _ & Hadds). repeat split; assumption.
Qed.

(** The warm-start switch of a solve is the negation of the reset flag the
    cycle starts with. *)
Lemma warm_start_flag (this : Tracking) (i : Input) (a : PnPCall) :
  state_ this <> NOT_INITIALIZED ->
  In a (solveCalls (events (cycleOf this i))) ->
  useExtrinsicGuess a = negb (reset_fixed_frame_ this)
  /\ rvecIn a = rvec_ this /\ tvecIn a = tvec_ this.
Proof.
  intros Hs Hin.
  destruct (cycle_solve_inversion this i a Hs Hin) as (_ & -> & _).
  repeat split.
Qed.

(** While WORKING the flag says whether the fixed frame was just replaced. *)
Lemma working_reset_flag (this : Tracking) (i : Input) :
  state_ this = WORKING ->
  reset_fixed_frame_ (after (cycleOf this i))
  = (cycleInliers (cycleOf this i) <? MIN_INLIERS).
Proof.
  intros Hst.
  assert (Hs : state_ this <> NOT_INITIALIZED) by (rewrite Hst; discriminate).
  pose proof (cycle_policy this i Hs) as (_ & _ & P3 & P4).
  destruct (Nat.lt_ge_cases (cycleInliers (cycleOf this i)) MIN_INLIERS)
    as [Hlt|Hge].
  - destruct (P3 Hst Hlt) as (_ & _ & -> & _).
    symmetry. now apply Nat.ltb_lt.
  - destruct (P4 Hst Hge) as (_ & _ & -> & _).
    symmetry. now apply Nat.ltb_ge.
Qed.

End CycleClaims.

(** ** Initialization *)

Section Initialization.

Context {T : SlamTypes} {C : Collaborators}.

(** The query [getOdom2CameraTf] sends for a message set. *)
Lemma callback_unresolved (this : Tracking) (i : Input) :
  state_ this = NOT_INITIALIZED ->
  lookupOf i = None ->
  msgsCallback i this
  = (set_odom2camera_ tf_identity this,
     [LookupTransform (child_frame_id (odom_msg i)) (frame_id (l_img_msg i));
      RosWarn; RosWarn]).
Proof.
  intros Hst Hno. unfold lookupOf in Hno.
  unfold msgsCallback, ifThenElse, getOdom2CameraTf.
  rewrite Hst, Hno. reflexivity.
Qed.

Lemma callback_resolved (this : Tracking) (i : Input) (t : Transform) :
  state_ this = NOT_INITIALIZED ->
  lookupOf i = Some t ->
  msgsCallback i this
  = (let mk := getCameraModel (l_info_msg i) (r_info_msg i) in
     let this1 := set_camera_ (fst mk) (snd mk) (set_odom2camera_ t this) in
     set_state_ INITIALIZING (set_f_frame_ (stampedFrame this1 i) this1),
     [LookupTransform (child_frame_id (odom_msg i)) (frame_id (l_img_msg i));
      GraphSetCamera2Odom (tf_inverse t);
      GraphSetCameraMatrix (snd (getCameraModel (l_info_msg i) (r_info_msg i)))]).
Proof.
  intros Hst Hyes. unfold lookupOf in Hyes.
  unfold msgsCallback, ifThenElse, getOdom2CameraTf.
  rewrite Hst, Hyes. cbn [trackingState_eqb negb].
  unfold initialize, andThen, assign, call.
  destruct (getCameraModel (l_info_msg i) (r_info_msg i)) as [m k].
  reflexivity.
Qed.

(** C6.  A message set that arrives in state NOT_INITIALIZED and whose
    odometry-to-camera lookup fails leaves the state NOT_INITIALIZED, the
    fixed frame, the camera model and the camera matrix as they were, and
    makes no call to the graph (the calls are the lookup and two warnings);
    the members it leaves do not depend on the message set.  The next message
    set queries the transform again, and initializes when that lookup
    succeeds. *)
Theorem failed_lookup_discards_input (this : Tracking) (i : Input) :
  state_ this = NOT_INITIALIZED ->
  lookupOf i = None ->
  let c := cycleOf this i in
  state_ (after c) = NOT_INITIALIZED
  /\ f_frame_ (after c) = f_frame_ this
  /\ c_frame_ (after c) = c_frame_ this
  /\ camera_model_ (after c) = camera_model_ this
  /\ camera_matrix_ (after c) = camera_matrix_ this
  /\ filter isGraphCall (events c) = []
  /\ events c
     = [LookupTransform (child_frame_id (odom_msg i)) (frame_id (l_img_msg i));
        RosWarn; RosWarn]
  /\ after c = set_odom2camera_ tf_identity this
  /\ (forall j, lookups (events (cycleOf (after c) j))
                = [(child_frame_id (odom_msg j), frame_id (l_img_msg j))])
  /\ (forall j t, lookupOf j = Some t ->
        state_ (after (cycleOf (after c) j)) = INITIALIZING).
Proof.
  intros Hst Hno c. unfold c, cycleOf. cbn [after events].
  rewrite (callback_unresolved this i Hst Hno). cbn [fst snd].
  repeat split; try assumption.
  - intros j.
    assert (Hst' : state_ (set_odom2camera_ tf_identity this) = NOT_INITIALIZED)
      by exact Hst.
    destruct (lookupOf j) as [t|] eqn:Ej.
    + rewrite (callback_resolved _ j Hst' Ej). reflexivity.
    + rewrite (callback_unresolved _ j Hst' Ej). reflexivity.
  - intros j t Ej.
    assert (Hst' : state_ (set_odom2camera_ tf_identity this) = NOT_INITIALIZED)
      by exact Hst.
    rewrite (callback_resolved _ j Hst' Ej). reflexivity.
Qed.

End Initialization.

(** ** Sessions *)

Section SessionClaims.

Context {T : SlamTypes} {C : Collaborators}.

Lemma not_initialized_cases (s : trackingState) :
  s = NOT_INITIALIZED \/ s <> NOT_INITIALIZED.
Proof. destruct s; (now left) || (right; discriminate). Qed.

Lemma tracks_true (c : Cycle) :
  tracks c = true <-> state_ (before c) <> NOT_INITIALIZED.
Proof.
  unfold tracks. destruct (state_ (before c)); simpl; split; intros H;
    try reflexivity; try discriminate; now elim H.
Qed.

(** A callback in state NOT_INITIALIZED: the state after it, and what it
    calls and leaves alone. *)
Lemma init_cycle (this : Tracking) (i : Input) :
  state_ this = NOT_INITIALIZED ->
  let c := cycleOf this i in
  state_ (after c) <> WORKING
  /\ reset_fixed_frame_ (after c) = reset_fixed_frame_ this
  /\ mapAdds (events c) = []
  /\ solveCalls (events c) = []
  /\ (lookupOf i = None ->
        state_ (after c) = NOT_INITIALIZED
        /\ odom2camera_ (after c) = tf_identity
        /\ camera_model_ (after c) = camera_model_ this
        /\ camera_matrix_ (after c) = camera_matrix_ this)
  /\ (forall t, lookupOf i = Some t ->
        state_ (after c) = INITIALIZING
        /\ odom2camera_ (after c) = t
        /\ (camera_model_ (after c), camera_matrix_ (after c))
           = getCameraModel (l_info_msg i) (r_info_msg i)
        /\ lookups (events c)
           = [(child_frame_id (odom_msg i), frame_id (l_img_msg i))]).
Proof.
  intros Hst c. unfold c, cycleOf. cbn [after events].
  destruct (lookupOf i) as [t|] eqn:E.
  - rewrite (callback_resolved this i Hst E). cbn.
    split; [discriminate|]. split; [reflexivity|].
    split; [reflexivity|]. split; [reflexivity|].
    split; [discriminate|].
    intros t' Ht'. injection Ht' as <-.
    split; [reflexivity|]. split; [reflexivity|].
    split; [|reflexivity].
    now destruct (getCameraModel (l_info_msg i) (r_info_msg i)).
  - rewrite (callback_unresolved this i Hst E). cbn.
    split; [rewrite Hst; discriminate|]. split; [reflexivity|].
    split; [reflexivity|]. split; [reflexivity|].
    split; [|discriminate].
    intros _. split; [exact Hst|]. repeat split.
Qed.

(** A tracking cycle keeps the session's configuration, asks tf and the graph
    nothing, and stays past NOT_INITIALIZED. *)
Lemma tracking_cycle_config (this : Tracking) (i : Input) :
  state_ this <> NOT_INITIALIZED ->
  let c := cycleOf this i in
  odom2camera_ (after c) = odom2camera_ this
  /\ camera_model_ (after c) = camera_model_ this
  /\ camera_matrix_ (after c) = camera_matrix_ this
  /\ lookups (events c) = []
  /\ filter isGraphCall (events c) = []
  /\ state_ (after c) <> NOT_INITIALIZED.
Proof.
  intros Hs c.
  pose proof (trackCurrentFrame_frame (entering this i))
    as (_ & _ & _ & A1 & A2 & A3 & _).
  pose proof (needNewFixedFrame_frame
                (fst (trackCurrentFrame (entering this i))))
    as (B1 & B2 & B3 & _).
  assert (Hpast : state_ (after (cycleOf this i)) <> NOT_INITIALIZED).
  { pose proof (cycle_policy this i Hs) as (P1 & P2 & P3 & P4).
    destruct (Nat.lt_ge_cases (cycleInliers (cycleOf this i)) MIN_INLIERS)
      as [Hlt|Hge];
      destruct (state_ this) eqn:Est; try (now elim Hs).
    - destruct (P1 eq_refl Hlt) as (-> & _). discriminate.
    - destruct (P3 eq_refl Hlt) as (-> & _). discriminate.
    - destruct (P2 eq_refl Hge) as (-> & _). discriminate.
    - destruct (P4 eq_refl Hge) as (-> & _). discriminate. }
  unfold c. split; [|split; [|split; [|split; [|split; [|exact Hpast]]]]].
  1-3: rewrite (cycle_after this i Hs); cbn zeta in *;
    change (odom2camera_ (entering this i)) with (odom2camera_ this) in A1;
    change (camera_model_ (entering this i)) with (camera_model_ this) in A2;
    change (camera_matrix_ (entering this i)) with (camera_matrix_ this) in A3;
    congruence.
  - rewrite (cycle_events this i Hs).
    rewrite needNewFixedFrame_events, trackCurrentFrame_events.
    unfold lookups. rewrite flat_map_app. cbn [flat_map app].
    fold (lookups (map MapAddPoints
      (mapAdds (snd (needNewFixedFrame
                       (fst (trackCurrentFrame (entering this i)))))))).
    rewrite (proj1 (proj2 (proj2 (map_adds_only _)))).
    destruct (_ <? _); reflexivity.
  - rewrite (cycle_events this i Hs).
    rewrite needNewFixedFrame_events, trackCurrentFrame_events.
    rewrite filter_app. cbn [filter isGraphCall].
    rewrite (proj1 (proj2 (proj2 (proj2 (map_adds_only _))))).
    destruct (_ <? _); reflexivity.
Qed.

(** Once WORKING, always WORKING. *)
Lemma working_forever (post : list Input) (this : Tracking) :
  state_ this = WORKING ->
  Forall (fun c => state_ (before c) = WORKING /\ state_ (after c) = WORKING)
         (session this post).
Proof.
  revert this. induction post as [|i post IH]; intros this Hst; simpl.
  - constructor.
  - assert (Hs : state_ this <> NOT_INITIALIZED) by (rewrite Hst; discriminate).
    pose proof (cycle_policy this i Hs) as (_ & _ & P3 & P4).
    assert (Hafter : state_ (after (cycleOf this i)) = WORKING).
    { destruct (Nat.lt_ge_cases (cycleInliers (cycleOf this i)) MIN_INLIERS)
        as [Hlt|Hge].
      - apply (P3 Hst Hlt).
      - apply (P4 Hst Hge). }
    constructor; [split; [exact Hst | exact Hafter] | apply IH; exact Hafter].
Qed.

(** While no tracking cycle has reached the threshold, the state has not
    reached WORKING, the map has received nothing and the reset flag is as it
    started. *)
Lemma bootstrap_prefix (pre : list Input) (this : Tracking) :
  state_ this <> WORKING ->
  Forall (fun c => tracks c = true -> cycleInliers c < MIN_INLIERS)
         (session this pre) ->
  state_ (finalState this pre) <> WORKING
  /\ reset_fixed_frame_ (finalState this pre) = reset_fixed_frame_ this
  /\ Forall (fun c => state_ (after c) <> WORKING /\ mapAdds (events c) = [])
            (session this pre).
Proof.
  revert this. induction pre as [|i pre IH]; intros this Hnw Hall.
  - repeat split; [exact Hnw | constructor].
  - cbn [session] in *.
    change (finalState this (i :: pre))
      with (finalState (after (cycleOf this i)) pre).
    inversion Hall as [|? ? Hc Hrest]; subst.
    assert (Hstep : state_ (after (cycleOf this i)) <> WORKING
                    /\ reset_fixed_frame_ (after (cycleOf this i))
                       = reset_fixed_frame_ this
                    /\ mapAdds (events (cycleOf this i)) = []).
    { destruct (not_initialized_cases (state_ this)) as [Hni|Hs].
      - pose proof (init_cycle this i Hni) as (H1 & H2 & H3 & _).
        repeat split; assumption.
      - pose proof (cycle_policy this i Hs) as (P1 & _).
        assert (Hst : state_ this = INITIALIZING)
          by (destruct (state_ this); try reflexivity;
              [now elim Hs | now elim Hnw]).
        assert (Hlt : cycleInliers (cycleOf this i) < MIN_INLIERS)
          by (apply Hc; apply tracks_true; exact Hs).
        destruct (P1 Hst Hlt) as (E1 & _ & E3 & E4).
        repeat split; try assumption. rewrite E1. discriminate. }
    destruct Hstep as (S1 & S2 & S3).
    destruct (IH (after (cycleOf this i)) S1 Hrest) as (I1 & I2 & I3).
    repeat split.
    + exact I1.
    + rewrite I2. exact S2.
    + constructor; [split; assumption | exact I3].
Qed.

(** The fixed frame after a callback in state NOT_INITIALIZED: the one
    before it, or the frame just built from the message set. *)
Lemma init_cycle_frame (this : Tracking) (i : Input) :
  state_ this = NOT_INITIALIZED ->
  f_frame_ (after (cycleOf this i)) = f_frame_ this
  \/ f_frame_ (after (cycleOf this i))
     = stampedFrame (after (cycleOf this i)) i.
Proof.
  intros Hst. unfold cycleOf. cbn [after].
  destruct (lookupOf i) as [t|] eqn:E.
  - right. rewrite (callback_resolved this i Hst E). reflexivity.
  - left. rewrite (callback_unresolved this i Hst E). reflexivity.
Qed.

(** While no tracking cycle has reached the threshold, every cycle leaves
    as fixed frame a frame as it was built: no world points are computed or
    clustered and nothing goes to the map. *)
Lemma bootstrap_prefix_frames (pre : list Input) (this : Tracking) :
  state_ this <> WORKING ->
  Forall (fun c => tracks c = true -> cycleInliers c < MIN_INLIERS)
         (session this pre) ->
  Forall (fun c =>
            state_ (after c) <> WORKING
            /\ mapAdds (events c) = []
            /\ (tracks c = true ->
                  f_frame_ (after c)
                  = setInliers (cycleInliers c)
                               (stampedFrame (before c) (input c)))
            /\ (tracks c = false ->
                  f_frame_ (after c) = f_frame_ (before c)
                  \/ f_frame_ (after c) = stampedFrame (after c) (input c)))
         (session this pre).
Proof.
  revert this. induction pre as [|i pre IH]; intros this Hnw Hall.
  - constructor.
  - cbn [session] in *.
    inversion Hall as [|? ? Hc Hrest]; subst.
    destruct (not_initialized_cases (state_ this)) as [Hni|Hs].
    + pose proof (init_cycle this i Hni) as (H1 & _ & H3 & _).
      constructor; [|apply IH; assumption].
      split; [exact H1|]. split; [exact H3|]. split.
      * intros Htr. apply tracks_true in Htr. cbn [before cycleOf] in Htr.
        now elim Htr.
      * intros _. cbn [before input cycleOf].
        fold (cycleOf this i). apply init_cycle_frame. exact Hni.
    + assert (Hst : state_ this = INITIALIZING)
        by (revert Hs Hnw; destruct (state_ this); intros;
            try reflexivity; congruence).
      assert (Hlt : cycleInliers (cycleOf this i) < MIN_INLIERS)
        by (apply Hc; apply tracks_true; exact Hs).
      pose proof (cycle_policy this i Hs) as (P1 & _).
      pose proof (cycle_tracked this i Hs) as (_ & _ & _ & _ & _ & Hcur).
      destruct (P1 Hst Hlt) as (E1 & E2 & _ & E4).
      assert (Hnw' : state_ (after (cycleOf this i)) <> WORKING)
        by (rewrite E1; discriminate).
      constructor; [|apply IH; assumption].
      split; [exact Hnw'|]. split; [exact E4|]. split.
      * intros _. rewrite E2. exact Hcur.
      * intros Htr.
        assert (Ht : tracks (cycleOf this i) = true)
          by (apply tracks_true; exact Hs).
        rewrite Ht in Htr. discriminate.
Qed.

(** C2.  In a session, take the first tracking cycle whose inlier count
    reaches [MIN_INLIERS].  That cycle starts in INITIALIZING and ends in
    WORKING; on it the world points of the fixed frame it started with are
    computed and clustered, and the resulting frame is the new fixed frame
    and the one frame handed to the map.  No earlier cycle ends in WORKING
    or hands anything to the map, and each earlier cycle leaves as fixed
    frame a frame as it was built, with no world points computed or
    clustered: a bootstrap cycle (in INITIALIZING, replaced for insufficient
    inliers) leaves its own current frame, a callback in NOT_INITIALIZED the
    frame it just built or the one there was.  Every later cycle starts and
    ends in WORKING, so the step from INITIALIZING to WORKING happens on that
    cycle and on no other. *)
Theorem bootstrap_to_working (members : Tracking) (pre : list Input)
        (x : Input) (post : list Input) :
  let s0 := run (Tracking_new members) in
  let cx := cycleOf (finalState s0 pre) x in
  Forall (fun c => tracks c = true -> cycleInliers c < MIN_INLIERS)
         (session s0 pre) ->
  tracks cx = true ->
  MIN_INLIERS <= cycleInliers cx ->
  state_ (before cx) = INITIALIZING
  /\ state_ (after cx) = WORKING
  /\ mapAdds (events cx)
     = [clusterWorldpoints (computeWorldPoints (f_frame_ (before cx)))]
  /\ f_frame_ (after cx)
     = clusterWorldpoints (computeWorldPoints (f_frame_ (before cx)))
  /\ Forall (fun c =>
               state_ (after c) <> WORKING
               /\ mapAdds (events c) = []
               /\ (tracks c = true ->
                     f_frame_ (after c)
                     = setInliers (cycleInliers c)
                                  (stampedFrame (before c) (input c)))
               /\ (tracks c = false ->
                     f_frame_ (after c) = f_frame_ (before c)
                     \/ f_frame_ (after c)
                        = stampedFrame (after c) (input c)))
            (session s0 pre)
  /\ Forall (fun c => state_ (before c) = WORKING /\ state_ (after c) = WORKING)
            (session (after cx) post).
Proof.
  intros s0 cx Hpre Htr Hge.
  assert (H0 : state_ s0 <> WORKING) by (unfold s0; cbn; discriminate).
  destruct (bootstrap_prefix pre s0 H0 Hpre) as (Hnw & _ & _).
  pose proof (bootstrap_prefix_frames pre s0 H0 Hpre) as Hquiet.
  apply tracks_true in Htr. unfold cx in Htr. cbn [before cycleOf] in Htr.
  assert (Hst : state_ (finalState s0 pre) = INITIALIZING)
    by (revert Htr Hnw; destruct (state_ (finalState s0 pre)); intros;
        try reflexivity; congruence).
  pose proof (cycle_policy (finalState s0 pre) x Htr) as (_ & P2 & _).
  destruct (P2 Hst Hge) as (E1 & E2 & _ & E4).
  split; [exact Hst|]. split; [exact E1|].
  split; [exact E4|]. split; [exact E2|]. split; [exact Hquiet|].
  apply working_forever. exact E1.
Qed.

(** Before the first successful lookup every callback finds the state
    NOT_INITIALIZED, resets the transform to the identity and leaves the
    camera model and matrix alone. *)
Lemma unresolved_prefix (pre : list Input) (this : Tracking) :
  state_ this = NOT_INITIALIZED ->
  Forall (fun i => lookupOf i = None) pre ->
  state_ (finalState this pre) = NOT_INITIALIZED
  /\ Forall (fun c => state_ (before c) = NOT_INITIALIZED
                      /\ odom2camera_ (after c) = tf_identity
                      /\ camera_model_ (after c) = camera_model_ this
                      /\ camera_matrix_ (after c) = camera_matrix_ this)
            (session this pre).
Proof.
  revert this. induction pre as [|i pre IH]; intros this Hst Hall.
  - split; [exact Hst | constructor].
  - cbn [session].
    change (finalState this (i :: pre))
      with (finalState (after (cycleOf this i)) pre).
    inversion Hall as [|? ? Hi Hrest]; subst.
    pose proof (init_cycle this i Hst) as (_ & _ & _ & _ & Hfail & _).
    destruct (Hfail Hi) as (S1 & S2 & S3 & S4).
    destruct (IH (after (cycleOf this i)) S1 Hrest) as (I1 & I2).
    split; [exact I1|].
    constructor; [repeat split; assumption|].
    eapply Forall_impl; [|exact I2].
    intros c (A1 & A2 & A3 & A4). rewrite A3, A4. repeat split; assumption.
Qed.

(** Past NOT_INITIALIZED the transform, the camera model and the camera
    matrix never change again and tf is never asked again. *)
Lemma config_frozen (post : list Input) (this : Tracking) :
  state_ this <> NOT_INITIALIZED ->
  Forall (fun c => odom2camera_ (after c) = odom2camera_ this
                   /\ camera_model_ (after c) = camera_model_ this
                   /\ camera_matrix_ (after c) = camera_matrix_ this
                   /\ lookups (events c) = []
                   /\ filter isGraphCall (events c) = [])
         (session this post).
Proof.
  revert this. induction post as [|i post IH]; intros this Hs; cbn [session].
  - constructor.
  - pose proof (tracking_cycle_config this i Hs)
      as (C1 & C2 & C3 & C4 & C5 & C6).
    constructor; [repeat split; assumption|].
    eapply Forall_impl; [|exact (IH (after (cycleOf this i)) C6)].
    intros c (A1 & A2 & A3 & A4 & A5).
    rewrite A1, A2, A3. repeat split; assumption.
Qed.

(** C7 (as the code has it).  In a session whose first successful lookup
    happens on message set [x]: every earlier callback resets the
    odometry-to-camera transform to the identity and leaves the camera model
    and the camera matrix as constructed; the callback of [x] stores the
    resolved transform and the camera model and matrix of [x]'s calibration;
    every later callback leaves all three as that callback set them and sends
    no query to tf. *)
Theorem session_configuration_set_once (members : Tracking)
        (pre : list Input) (x : Input) (post : list Input) (t : Transform) :
  let s0 := run (Tracking_new members) in
  let cx := cycleOf (finalState s0 pre) x in
  Forall (fun i => lookupOf i = None) pre ->
  lookupOf x = Some t ->
  Forall (fun c => state_ (before c) = NOT_INITIALIZED
                   /\ odom2camera_ (after c) = tf_identity
                   /\ camera_model_ (after c) = camera_model_ members
                   /\ camera_matrix_ (after c) = camera_matrix_ members)
         (session s0 pre)
  /\ state_ (before cx) = NOT_INITIALIZED
  /\ state_ (after cx) = INITIALIZING
  /\ odom2camera_ (after cx) = t
  /\ (camera_model_ (after cx), camera_matrix_ (after cx))
     = getCameraModel (l_info_msg x) (r_info_msg x)
  /\ lookups (events cx)
     = [(child_frame_id (odom_msg x), frame_id (l_img_msg x))]
  /\ Forall (fun c => odom2camera_ (after c) = t
                      /\ camera_model_ (after c) = camera_model_ (after cx)
                      /\ camera_matrix_ (after c) = camera_matrix_ (after cx)
                      /\ lookups (events c) = [])
            (session (after cx) post).
Proof.
  intros s0 cx Hpre Hx.
  assert (H0 : state_ s0 = NOT_INITIALIZED) by reflexivity.
  destruct (@unresolved_prefix pre s0 H0 Hpre) as (Hst & Hquiet).
  pose proof (init_cycle (finalState s0 pre) x Hst) as (_ & _ & _ & _ & _ & Hok).
  destruct (Hok t Hx) as (S1 & S2 & S3 & S4).
  fold cx in S1, S2, S3, S4.
  split; [exact Hquiet|]. split; [exact Hst|]. split; [exact S1|].
  split; [exact S2|]. split; [exact S3|]. split; [exact S4|].
  assert (Hpast : state_ (after cx) <> NOT_INITIALIZED)
    by (rewrite S1; discriminate).
  eapply Forall_impl; [|exact (config_frozen post (after cx) Hpast)].
  intros c (A1 & A2 & A3 & A4 & _). rewrite A1, S2. repeat split; assumption.
Qed.





(** Until the state is WORKING the reset flag is never raised. *)
Lemma flag_clear_until_working (pre : list Input) (this : Tracking) :
  (state_ this <> WORKING -> reset_fixed_frame_ this = false) ->
  state_ (finalState this pre) <> WORKING ->
  reset_fixed_frame_ (finalState this pre) = false.
Proof.
  revert this. induction pre as [|i pre IH]; intros this Hinv Hnw.
  - apply Hinv. exact Hnw.
  - change (finalState this (i :: pre))
      with (finalState (after (cycleOf this i)) pre) in *.
    apply IH; [|exact Hnw].
    intros Hstep.
    destruct (not_initialized_cases (state_ this)) as [Hni|Hs].
    + pose proof (init_cycle this i Hni) as (_ & -> & _).
      apply Hinv. rewrite Hni. discriminate.
    + pose proof (cycle_policy this i Hs) as (P1 & P2 & P3 & P4).
      destruct (state_ this) eqn:Est; try (now elim Hs).
      * destruct (Nat.lt_ge_cases (cycleInliers (cycleOf this i)) MIN_INLIERS)
          as [Hlt|Hge].
        -- destruct (P1 eq_refl Hlt) as (_ & _ & -> & _).
           apply Hinv. discriminate.
        -- apply (P2 eq_refl Hge).
      * destruct (Nat.lt_ge_cases (cycleInliers (cycleOf this i)) MIN_INLIERS)
          as [Hlt|Hge].
        -- destruct (P3 eq_refl Hlt) as (Hw & _). now elim Hstep.
        -- apply (P4 eq_refl Hge).
Qed.

(** C3 (the code on a bootstrap replacement).  In a session, a cycle that
    starts in INITIALIZING and ends with fewer than [MIN_INLIERS] inliers
    replaces the fixed frame by the current frame and leaves the reset flag
    cleared, so every solve of the next cycle is called with the warm-start
    switch on. *)
Theorem bootstrap_replacement_keeps_warm_start (members : Tracking)
        (pre : list Input) (i j : Input) :
  let s := finalState (run (Tracking_new members)) pre in
  let c1 := cycleOf s i in
  let c2 := cycleOf (after c1) j in
  state_ s = INITIALIZING ->
  cycleInliers c1 < MIN_INLIERS ->
  f_frame_ (after c1) = c_frame_ (after c1)
  /\ state_ (after c1) = INITIALIZING
  /\ reset_fixed_frame_ (after c1) = false
  /\ (forall a, In (SolvePnPRansac a) (events c2) ->
                useExtrinsicGuess a = true).
Proof.
  intros s c1 c2 Hst Hlt.
  assert (Hs : state_ s <> NOT_INITIALIZED) by (rewrite Hst; discriminate).
  assert (Hflag : reset_fixed_frame_ s = false).
  { apply flag_clear_until_working.
    - intros _. reflexivity.
    - fold s. rewrite Hst. discriminate. }
  pose proof (cycle_policy s i Hs) as (P1 & _).
  destruct (P1 Hst Hlt) as (E1 & E2 & E3 & _). fold c1 in E1, E2, E3.
  rewrite Hflag in E3.
  split; [exact E2|]. split; [exact E1|]. split; [exact E3|].
  intros a Hin. apply in_solveCalls in Hin.
  assert (Hs1 : state_ (after c1) <> NOT_INITIALIZED)
    by (rewrite E1; discriminate).
  destruct (warm_start_flag (after c1) j a Hs1 Hin) as (-> & _).
  rewrite E3. reflexivity.
Qed.

End SessionClaims.

(** ** The statements at work on synthetic sessions *)

Section Scenarios.

Import Synthetic.

#[local] Existing Instance Synthetic.types.
#[local] Existing Instance Synthetic.collab.


Lemma sparse_short_circuit_witness :
  state_ working <> NOT_INITIALIZED
  /\ length (cycleMatches (f_frame_ working)
                          (stampedFrame working (sparseView 2 8)))
     < MIN_INLIERS
  /\ solveCalls (events (cycleOf working (sparseView 2 8))) = []
  /\ getInliers (c_frame_ (after (cycleOf working (sparseView 2 8)))) = 0.
Proof.
  assert (Hs : state_ working <> NOT_INITIALIZED)
    by (vm_compute; intros H; discriminate H).
  assert (Hlt : length (cycleMatches (f_frame_ working)
                          (stampedFrame working (sparseView 2 8)))
                < MIN_INLIERS)
    by (apply Nat.ltb_lt; vm_compute; reflexivity).
  pose proof (sparse_short_circuit working (sparseView 2 8) Hs Hlt)
    as (H1 & _ & _ & _ & _ & H6).
  repeat split; assumption.
Defined.

Lemma solve_call_arguments_witness :
  state_ bootstrapped <> NOT_INITIALIZED
  /\ In (SolvePnPRansac (solveArgs (entering bootstrapped (view 1 7))))
        (events (cycleOf bootstrapped (view 1 7)))
  /\ iterationsCount (solveArgs (entering bootstrapped (view 1 7))) = 100
  /\ getInliers (c_frame_ (after (cycleOf bootstrapped (view 1 7))))
     = length (snd (solvePnPRansac
                      (solveArgs (entering bootstrapped (view 1 7))))).
Proof.
  assert (Hs : state_ bootstrapped <> NOT_INITIALIZED)
    by (vm_compute; intros H; discriminate H).
  assert (Hin : In (SolvePnPRansac (solveArgs (entering bootstrapped (view 1 7))))
                   (events (cycleOf bootstrapped (view 1 7))))
    by (vm_compute; left; reflexivity).
  pose proof (solve_call_arguments bootstrapped (view 1 7) _ Hs Hin)
    as (_ & _ & _ & H4 & _ & _ & _ & _ & H9).
  repeat split; assumption.
Defined.

Lemma fixed_frame_policy_witness :
  state_ working <> NOT_INITIALIZED
  /\ c_frame_ (after (cycleOf working (sparseView 2 8)))
     = setInliers (cycleInliers (cycleOf working (sparseView 2 8)))
                  (stampedFrame working (sparseView 2 8)).
Proof.
  assert (Hs : state_ working <> NOT_INITIALIZED)
    by (vm_compute; intros H; discriminate H).
  split; [exact Hs|].
  exact (proj1 (fixed_frame_policy working (sparseView 2 8) Hs)).
Defined.

(** C1 as stated fails on both halves.  While WORKING, a cycle with 0 inliers
    leaves a fixed frame that is neither the frame built from the input nor
    the current-frame member: its world points have been computed.  On the
    cycle that leaves INITIALIZING with 40 inliers the fixed frame is not
    what it was before the cycle. *)
Lemma fixed_frame_not_by_value :
  (state_ working = WORKING
   /\ cycleInliers (cycleOf working (sparseView 2 8)) < MIN_INLIERS
   /\ f_frame_ (after (cycleOf working (sparseView 2 8)))
      <> stampedFrame working (sparseView 2 8)
   /\ f_frame_ (after (cycleOf working (sparseView 2 8)))
      <> c_frame_ (after (cycleOf working (sparseView 2 8))))
  /\ (state_ bootstrapped = INITIALIZING
      /\ MIN_INLIERS <= cycleInliers (cycleOf bootstrapped (view 1 7))
      /\ f_frame_ (after (cycleOf bootstrapped (view 1 7)))
         <> f_frame_ bootstrapped).
Proof.
  split; [split; [reflexivity|split; [|split]] | split; [reflexivity|split]].
  - apply Nat.ltb_lt. vm_compute. reflexivity.
  - intros H. apply (f_equal getWorldPoints) in H. vm_compute in H.
    discriminate H.
  - intros H. apply (f_equal getWorldPoints) in H. vm_compute in H.
    discriminate H.
  - apply Nat.leb_le. vm_compute. reflexivity.
  - intros H. apply (f_equal getWorldPoints) in H. vm_compute in H.
    discriminate H.
Qed.

Lemma promotion_grows_fixed_frame_witness :
  state_ bootstrapped = INITIALIZING
  /\ state_ (after (cycleOf bootstrapped (view 1 7))) = WORKING
  /\ mapAdds (events (cycleOf bootstrapped (view 1 7)))
     = [clusterWorldpoints (computeWorldPoints (f_frame_ bootstrapped))].
Proof.
  assert (H1 : state_ bootstrapped = INITIALIZING) by reflexivity.
  assert (H2 : state_ (after (cycleOf bootstrapped (view 1 7))) = WORKING)
    by (vm_compute; reflexivity).
  pose proof (promotion_grows_fixed_frame bootstrapped (view 1 7) H1 H2)
    as (_ & _ & H5 & _).
  repeat split; assumption.
Defined.

Lemma failed_lookup_discards_input_witness :
  state_ started = NOT_INITIALIZED
  /\ lookupOf (unresolved 0 7) = None
  /\ state_ (after (cycleOf started (unresolved 0 7))) = NOT_INITIALIZED
  /\ filter isGraphCall (events (cycleOf started (unresolved 0 7))) = [].
Proof.
  assert (H1 : state_ started = NOT_INITIALIZED) by reflexivity.
  assert (H2 : lookupOf (unresolved 0 7) = None) by reflexivity.
  pose proof (failed_lookup_discards_input started (unresolved 0 7) H1 H2)
    as (H3 & _ & _ & _ & _ & H8 & _).
  repeat split; assumption.
Defined.

Lemma bootstrap_to_working_witness :
  let pre := [unresolved 0 7; view 0 7; view 1 8; sparseView 2 8] in
  let cx := cycleOf (finalState started pre) (view 3 8) in
  Forall (fun c => tracks c = true -> cycleInliers c < MIN_INLIERS)
         (session started pre)
  /\ tracks cx = true
  /\ MIN_INLIERS <= cycleInliers cx
  /\ state_ (before cx) = INITIALIZING
  /\ state_ (after cx) = WORKING
  /\ mapAdds (events cx)
     = [clusterWorldpoints (computeWorldPoints (f_frame_ (before cx)))].
Proof.
  intros pre cx.
  assert (H1 : Forall (fun c => tracks c = true -> cycleInliers c < MIN_INLIERS)
                      (session started pre)).
  { unfold pre. cbn [session].
    repeat first [apply Forall_nil | apply Forall_cons];
      intros _; apply Nat.ltb_lt; vm_compute; reflexivity. }
  assert (H2 : tracks cx = true) by (vm_compute; reflexivity).
  assert (H3 : MIN_INLIERS <= cycleInliers cx)
    by (apply Nat.leb_le; vm_compute; reflexivity).
  pose proof (bootstrap_to_working members pre (view 3 8)
                [sparseView 4 6; view 5 6] H1 H2 H3) as (H4 & H5 & H6 & _).
  split; [exact H1|]. split; [exact H2|]. split; [exact H3|].
  split; [exact H4|]. split; [exact H5 | exact H6].
Defined.

Lemma session_configuration_set_once_witness :
  let pre := [unresolved 0 7; unresolved 1 7] in
  let cx := cycleOf (finalState started pre) (view 2 7) in
  Forall (fun i => lookupOf i = None) pre
  /\ lookupOf (view 2 7) = Some 3%Z
  /\ odom2camera_ (after cx) = 3%Z
  /\ Forall (fun c => odom2camera_ (after c) = 3%Z
                      /\ camera_model_ (after c) = camera_model_ (after cx)
                      /\ camera_matrix_ (after c) = camera_matrix_ (after cx)
                      /\ lookups (events c) = [])
            (session (after cx) [view 3 7; sparseView 4 9]).
Proof.
  intros pre cx.
  assert (H1 : Forall (fun i => lookupOf i = None) pre)
    by (repeat constructor).
  assert (H2 : lookupOf (view 2 7) = Some 3%Z) by reflexivity.
  pose proof (@session_configuration_set_once types collab members pre
                (view 2 7) [view 3 7; sparseView 4 9] 3%Z H1 H2)
    as (_ & _ & _ & H6 & _ & _ & H9).
  repeat split; assumption.
Defined.

(** C7 as stated fails for the transform: a message set whose lookup fails
    writes the member (to the identity), and the first message set whose
    lookup succeeds writes it again. *)
Lemma transform_written_before_success :
  let c1 := cycleOf started (unresolved 0 7) in
  let c2 := cycleOf (after c1) (view 1 7) in
  lookupOf (unresolved 0 7) = None
  /\ odom2camera_ (before c1) = 5%Z
  /\ odom2camera_ (after c1) = 0%Z
  /\ odom2camera_ (after c1) <> odom2camera_ (before c1)
  /\ lookupOf (view 1 7) = Some 3%Z
  /\ odom2camera_ (after c2) = 3%Z
  /\ odom2camera_ (after c2) <> odom2camera_ (before c2).
Proof.
  cbv zeta.
  split; [reflexivity|]. split; [reflexivity|]. split; [reflexivity|].
  split; [vm_compute; intros H; discriminate H|].
  split; [reflexivity|]. split; [reflexivity|].
  vm_compute; intros H; discriminate H.
Qed.


Lemma bootstrap_replacement_keeps_warm_start_witness :
  let s := finalState (run (Tracking_new members)) [view 0 7] in
  let c1 := cycleOf s (view 1 8) in
  let c2 := cycleOf (after c1) (view 2 9) in
  state_ s = INITIALIZING
  /\ cycleInliers c1 < MIN_INLIERS
  /\ f_frame_ (after c1) = c_frame_ (after c1)
  /\ In (SolvePnPRansac (solveArgs (entering (after c1) (view 2 9))))
        (events c2)
  /\ useExtrinsicGuess (solveArgs (entering (after c1) (view 2 9))) = true.
Proof.
  intros s c1 c2.
  assert (H1 : state_ s = INITIALIZING) by reflexivity.
  assert (H2 : cycleInliers c1 < MIN_INLIERS)
    by (apply Nat.ltb_lt; vm_compute; reflexivity).
  pose proof (bootstrap_replacement_keeps_warm_start members [view 0 7]
                (view 1 8) (view 2 9) H1 H2) as (H3 & _ & _ & H6).
  assert (Hin : In (SolvePnPRansac (solveArgs (entering (after c1) (view 2 9))))
                   (events c2))
    by (vm_compute; left; reflexivity).
  split; [exact H1|]. split; [exact H2|]. split; [exact H3|].
  split; [exact Hin|]. exact (H6 _ Hin).
Defined.

End Scenarios.

(** * Further properties of the tracker *)

Section Matching.

(** X1.  The matching loop (tracking.cpp:138-143) adds at most one
    correspondence per row of neighbours, and every correspondence it adds is
    the first neighbour of a row that has a second neighbour and passes the
    ratio test against it. *)
Theorem one_match_per_descriptor (rows : list (list DMatch))
        (acc : list DMatch) :
  length (ratioLoop acc rows) <= length acc + length rows
  /\ (forall m, In m (ratioLoop [] rows) ->
        exists second rest,
          In (m :: second :: rest) rows
          /\ (distance m <=? distance second * ratio)%float = true).
Proof.
  split.
  - rewrite ratioLoop_flat_map, length_app.
    apply Nat.add_le_mono_l.
    induction rows as [|row rows IH]; simpl; [lia|].
    rewrite length_app.
    assert (length (ratioStep [] row) <= 1).
    { unfold ratioStep. destruct row as [|m0 [|m1 rest]]; simpl; try lia.
      destruct (distance m0 <=? distance m1 * ratio)%float; simpl; lia. }
    lia.
  - intros m Hin. rewrite ratioLoop_flat_map in Hin. simpl in Hin.
    apply in_flat_map in Hin. destruct Hin as (row & Hrow & Hm).
    unfold ratioStep in Hm.
    destruct row as [|m0 [|m1 rest]]; simpl in Hm; try contradiction.
    destruct (distance m0 <=? distance m1 * ratio)%float eqn:E;
      simpl in Hm; try contradiction.
    destruct Hm as [<-|[]]. exists m1, rest. split; assumption.
Qed.

(** X2.  On Hamming distances a tie between the nearest and the second
    neighbour is rejected, unless both distances are zero. *)
Theorem ties_are_rejected (acc : list DMatch) (m0 m1 : HMatch)
        (rest : list HMatch) :
  (0 <= hDist m0 <= maxHamming)%Z ->
  hDist m1 = hDist m0 ->
  ratioStep acc (map toDMatch (m0 :: m1 :: rest))
  = if (hDist m0 =? 0)%Z then acc ++ [toDMatch m0] else acc.
Proof.
  intros Hrange Htie. cbn [map ratioStep toDMatch distance].
  rewrite float_test_exact by (rewrite ?Htie; exact Hrange).
  rewrite Htie.
  destruct (hDist m0 =? 0)%Z eqn:E.
  - apply Z.eqb_eq in E. rewrite E. reflexivity.
  - apply Z.eqb_neq in E.
    destruct (10 * hDist m0 <=? 9 * hDist m0)%Z eqn:L; [|reflexivity].
    apply Z.leb_le in L. lia.
Qed.

End Matching.

Section TrackerProperties.

Context {T : SlamTypes} {C : Collaborators}.

Lemma cycle_matches (this : Tracking) (i : Input) :
  state_ this <> NOT_INITIALIZED ->
  matches_ (after (cycleOf this i))
  = cycleMatches (f_frame_ this) (stampedFrame this i).
Proof.
  intros Hs.
  pose proof (needNewFixedFrame_frame
                (fst (trackCurrentFrame (entering this i))))
    as (_ & _ & _ & _ & _ & M & _).
  cbn zeta in M. rewrite (cycle_after this i Hs), M.
  destruct (Nat.lt_ge_cases
              (length (cycleMatches (f_frame_ (entering this i))
                                    (c_frame_ (entering this i))))
              MIN_INLIERS) as [Hlt|Hge].
  - rewrite (trackCurrentFrame_sparse (entering this i) Hlt). reflexivity.
  - rewrite (trackCurrentFrame_solve (entering this i) Hge). reflexivity.
Qed.

(** X3.  Whenever a tracking cycle calls the solver, the object-point and
    image-point lists have the same length, one entry per correspondence in
    [matches_], and that length is at least [MIN_INLIERS]; no distortion
    coefficients are passed. *)
Theorem solver_gets_aligned_points (this : Tracking) (i : Input)
        (a : PnPCall) :
  state_ this <> NOT_INITIALIZED ->
  In (SolvePnPRansac a) (events (cycleOf this i)) ->
  length (objectPoints a) = length (imagePoints a)
  /\ length (objectPoints a) = length (matches_ (after (cycleOf this i)))
  /\ MIN_INLIERS <= length (objectPoints a)
  /\ distCoeffs a = emptyMat.
Proof.
  intros Hs Hin. apply in_solveCalls in Hin.
  destruct (cycle_solve_inversion this i a Hs Hin) as (Hge & -> & _).
  rewrite (cycle_matches this i Hs).
  unfold solveArgs, pnpCall, matchedObjectPoints, matchedImagePoints.
  cbn [objectPoints imagePoints distCoeffs entering f_frame_ c_frame_
       set_c_frame_].
  rewrite !length_map. repeat split. exact Hge.
Qed.

(** X4.  When every correspondence indexes inside the two frames, each
    object point handed to the solver is one of the current frame's camera
    points and each image point is the position of one of the fixed frame's
    keypoints: no filler value reaches the solver. *)
Theorem solver_points_come_from_frames (this : Tracking) (i : Input)
        (a : PnPCall) :
  state_ this <> NOT_INITIALIZED ->
  In (SolvePnPRansac a) (events (cycleOf this i)) ->
  indicesInRange (f_frame_ this) (stampedFrame this i)
                 (cycleMatches (f_frame_ this) (stampedFrame this i)) = true ->
  (forall p, In p (objectPoints a) ->
             In p (getCameraPoints (stampedFrame this i)))
  /\ (forall q, In q (imagePoints a) ->
                exists k, In k (getLeftKp (f_frame_ this)) /\ pt k = q).
Proof.
  intros Hs Hin Hrange. apply in_solveCalls in Hin.
  destruct (cycle_solve_inversion this i a Hs Hin) as (_ & -> & _).
  unfold indicesInRange in Hrange. rewrite forallb_forall in Hrange.
  unfold solveArgs, pnpCall, matchedObjectPoints, matchedImagePoints.
  cbn [objectPoints imagePoints entering f_frame_ c_frame_ set_c_frame_].
  split.
  - intros p Hp. apply in_map_iff in Hp. destruct Hp as (m & <- & Hm).
    specialize (Hrange m Hm). apply andb_true_iff in Hrange.
    destruct Hrange as (Hq & _). apply Nat.ltb_lt in Hq.
    apply nth_In. exact Hq.
  - intros q Hq. apply in_map_iff in Hq. destruct Hq as (m & <- & Hm).
    specialize (Hrange m Hm). apply andb_true_iff in Hrange.
    destruct Hrange as (_ & Ht). apply Nat.ltb_lt in Ht.
    eexists. split; [apply nth_In; exact Ht | reflexivity].
Qed.

(** X5.  While WORKING the warm start follows the replacement: a solve of
    the next cycle is called with the extrinsic guess exactly when the cycle
    before it kept the fixed frame, that is when its inlier count reached
    [MIN_INLIERS]. *)
Theorem working_warm_start (this : Tracking) (i j : Input) (a : PnPCall) :
  state_ this = WORKING ->
  In (SolvePnPRansac a) (events (cycleOf (after (cycleOf this i)) j)) ->
  useExtrinsicGuess a = (MIN_INLIERS <=? cycleInliers (cycleOf this i))
  /\ (useExtrinsicGuess a = true ->
        f_frame_ (after (cycleOf this i)) = f_frame_ this)
  /\ (useExtrinsicGuess a = false ->
        f_frame_ (after (cycleOf this i))
        = clusterWorldpoints
            (computeWorldPoints (c_frame_ (after (cycleOf this i))))).
Proof.
  intros Hst Hin. apply in_solveCalls in Hin.
  assert (Hs : state_ this <> NOT_INITIALIZED) by (rewrite Hst; discriminate).
  pose proof (cycle_policy this i Hs) as (_ & _ & P3 & P4).
  assert (Hs1 : state_ (after (cycleOf this i)) <> NOT_INITIALIZED).
  { destruct (Nat.lt_ge_cases (cycleInliers (cycleOf this i)) MIN_INLIERS)
      as [Hlt|Hge].
    - destruct (P3 Hst Hlt) as (-> & _). discriminate.
    - destruct (P4 Hst Hge) as (-> & _). discriminate. }
  destruct (warm_start_flag (after (cycleOf this i)) j a Hs1 Hin) as (-> & _).
  destruct (Nat.lt_ge_cases (cycleInliers (cycleOf this i)) MIN_INLIERS)
    as [Hlt|Hge].
  - destruct (P3 Hst Hlt) as (_ & Hf & -> & _).
    assert (E : (MIN_INLIERS <=? cycleInliers (cycleOf this i)) = false)
      by (apply Nat.leb_gt; exact Hlt).
    rewrite E. cbn [negb]. split; [reflexivity|].
    split; [discriminate | intros _; exact Hf].
  - destruct (P4 Hst Hge) as (_ & Hf & -> & _).
    assert (E : (MIN_INLIERS <=? cycleInliers (cycleOf this i)) = true)
      by (apply Nat.leb_le; exact Hge).
    rewrite E. cbn [negb]. split; [reflexivity|].
    split; [intros _; exact Hf | discriminate].
Qed.

(** X6.  A tracking cycle with fewer than [MIN_INLIERS] correspondences
    always replaces the fixed frame by the current frame with inlier count 0:
    silently while INITIALIZING, and while WORKING with the reset flag raised
    and the new fixed frame handed to the map. *)
Theorem sparse_cycle_replaces_fixed_frame (this : Tracking) (i : Input) :
  state_ this <> NOT_INITIALIZED ->
  length (cycleMatches (f_frame_ this) (stampedFrame this i)) < MIN_INLIERS ->
  let c := cycleOf this i in
  let cur := setInliers 0 (stampedFrame this i) in
  (state_ this = INITIALIZING ->
     f_frame_ (after c) = cur /\ state_ (after c) = INITIALIZING
     /\ mapAdds (events c) = [])
  /\ (state_ this = WORKING ->
     f_frame_ (after c) = clusterWorldpoints (computeWorldPoints cur)
     /\ reset_fixed_frame_ (after c) = true
     /\ mapAdds (events c) = [clusterWorldpoints (computeWorldPoints cur)]).
Proof.
  intros Hs Hlt c cur.
  pose proof (cycle_tracked this i Hs) as (_ & _ & _ & H4 & _ & H6).
  pose proof (cycle_policy this i Hs) as (P1 & _ & P3 & _).
  fold c in H4, H6, P1, P3.
  rewrite (trackCurrentFrame_sparse (entering this i) Hlt) in H4.
  cbn [fst inliers_ set_c_frame_ set_matches_ set_inliers_] in H4.
  assert (Hn : cycleInliers c = 0) by (unfold cycleInliers; now rewrite <- H4).
  assert (Hpos : cycleInliers c < MIN_INLIERS) by lia.
  rewrite Hn in H6. fold cur in H6. rewrite H6 in P1, P3.
  split; intros Hst.
  - destruct (P1 Hst Hpos) as (E1 & E2 & _ & E4). repeat split; assumption.
  - destruct (P3 Hst Hpos) as (_ & E2 & E3 & E4). repeat split; assumption.
Qed.

Lemma trackCurrentFrame_forgets (this : Tracking) (ms : list DMatch)
      (inl : list nat) :
  trackCurrentFrame (set_matches_ ms (set_inliers_ inl this))
  = trackCurrentFrame this.
Proof. reflexivity. Qed.

(** X7.  The bookkeeping of a tracking cycle is its own: whatever
    [matches_] and [inliers_] hold when the callback starts, the members
    after the cycle and the calls made are the same. *)
Theorem bookkeeping_is_per_cycle (this : Tracking) (i : Input)
        (ms : list DMatch) (inl : list nat) :
  state_ this <> NOT_INITIALIZED ->
  after (cycleOf (set_matches_ ms (set_inliers_ inl this)) i)
  = after (cycleOf this i)
  /\ events (cycleOf (set_matches_ ms (set_inliers_ inl this)) i)
     = events (cycleOf this i).
Proof.
  intros Hs.
  assert (Hs' : state_ (set_matches_ ms (set_inliers_ inl this))
                <> NOT_INITIALIZED) by exact Hs.
  rewrite (cycle_after this i Hs), (cycle_after _ i Hs').
  rewrite (cycle_events this i Hs), (cycle_events _ i Hs').
  change (entering (set_matches_ ms (set_inliers_ inl this)) i)
    with (set_matches_ ms (set_inliers_ inl (entering this i))).
  rewrite trackCurrentFrame_forgets. split; reflexivity.
Qed.

(** X8.  The calls of a tracking cycle come in a fixed order: the solve, if
    there is one, then exactly one publisher update, then the map insertion,
    if there is one; tf, the graph and the log are not called. *)
Theorem tracking_cycle_call_order (this : Tracking) (i : Input) :
  state_ this <> NOT_INITIALIZED ->
  let c := cycleOf this i in
  events c
  = map SolvePnPRansac (solveCalls (events c))
      ++ PublisherUpdate :: map MapAddPoints (mapAdds (events c))
  /\ length (solveCalls (events c)) <= 1
  /\ length (mapAdds (events c)) <= 1.
Proof.
  intros Hs c.
  pose proof (cycle_solveCalls this i Hs) as Hcalls.
  pose proof (cycle_mapAdds this i Hs) as Hadds.
  pose proof (cycle_events this i Hs) as Hev.
  fold c in Hcalls, Hadds, Hev.
  rewrite needNewFixedFrame_events, trackCurrentFrame_events in Hev.
  cbn [entering f_frame_ c_frame_ set_c_frame_] in Hev.
  rewrite <- Hadds in Hev.
  split; [|split].
  - rewrite Hev at 1. rewrite Hcalls.
    destruct (length (cycleMatches (f_frame_ this) (stampedFrame this i))
                <? MIN_INLIERS); reflexivity.
  - rewrite Hcalls.
    destruct (length (cycleMatches (f_frame_ this) (stampedFrame this i))
                <? MIN_INLIERS); simpl; lia.
  - pose proof (cycle_policy this i Hs) as (P1 & P2 & P3 & P4).
    fold c in P1, P2, P3, P4.
    destruct (Nat.lt_ge_cases (cycleInliers c) MIN_INLIERS) as [Hlt|Hge];
      destruct (state_ this) eqn:Est; try (now elim Hs).
    + destruct (P1 eq_refl Hlt) as (_ & _ & _ & ->). simpl; lia.
    + destruct (P3 eq_refl Hlt) as (_ & _ & _ & ->). simpl; lia.
    + destruct (P2 eq_refl Hge) as (_ & _ & _ & ->). simpl; lia.
    + destruct (P4 eq_refl Hge) as (_ & _ & _ & ->). simpl; lia.
Qed.

End TrackerProperties.

Section SessionProperties.

Context {T : SlamTypes} {C : Collaborators}.

Lemma session_app (a b : list Input) (this : Tracking) :
  session this (a ++ b) = session this a ++ session (finalState this a) b.
Proof.
  revert this. induction a as [|i a IH]; intros this; [reflexivity|].
  cbn [app session].
  change (finalState this (i :: a))
    with (finalState (after (cycleOf this i)) a).
  now rewrite IH.
Qed.

Lemma step_rank (this : Tracking) (i : Input) :
  rank (state_ this) <= rank (state_ (after (cycleOf this i)))
  /\ rank (state_ (after (cycleOf this i))) <= S (rank (state_ this)).
Proof.
  destruct (not_initialized_cases (state_ this)) as [Hni|Hs].
  - pose proof (init_cycle this i Hni) as (_ & _ & _ & _ & Hfail & Hok).
    rewrite Hni. destruct (lookupOf i) as [t|].
    + destruct (Hok t eq_refl) as (-> & _). simpl; lia.
    + destruct (Hfail eq_refl) as (-> & _). simpl; lia.
  - pose proof (cycle_policy this i Hs) as (P1 & P2 & P3 & P4).
    destruct (Nat.lt_ge_cases (cycleInliers (cycleOf this i)) MIN_INLIERS)
      as [Hlt|Hge];
      destruct (state_ this) eqn:Est; try (now elim Hs).
    + destruct (P1 eq_refl Hlt) as (-> & _). simpl; lia.
    + destruct (P3 eq_refl Hlt) as (-> & _). simpl; lia.
    + destruct (P2 eq_refl Hge) as (-> & _). simpl; lia.
    + destruct (P4 eq_refl Hge) as (-> & _). simpl; lia.
Qed.

(** X9.  The state never goes back: a callback leaves the state where it is
    or moves it one step along NOT_INITIALIZED, INITIALIZING, WORKING, and
    after any number of callbacks the state is at least where it started. *)
Theorem state_never_goes_back (this : Tracking) (ins : list Input) :
  rank (state_ this) <= rank (state_ (finalState this ins))
  /\ Forall (fun c => rank (state_ (before c)) <= rank (state_ (after c))
                      /\ rank (state_ (after c)) <= S (rank (state_ (before c))))
            (session this ins).
Proof.
  revert this. induction ins as [|i ins IH]; intros this.
  - split; [apply Nat.le_refl | constructor].
  - change (finalState this (i :: ins))
      with (finalState (after (cycleOf this i)) ins).
    cbn [session].
    destruct (IH (after (cycleOf this i))) as (I1 & I2).
    pose proof (step_rank this i) as (S1 & S2).
    split; [lia|]. constructor; [split; assumption | exact I2].
Qed.

Lemma unresolved_graph_silent (pre : list Input) (this : Tracking) :
  state_ this = NOT_INITIALIZED ->
  Forall (fun i => lookupOf i = None) pre ->
  allGraphCalls (session this pre) = [].
Proof.
  revert this. induction pre as [|i pre IH]; intros this Hst Hall;
    [reflexivity|].
  inversion Hall as [|? ? Hi Hrest]; subst.
  cbn [session allGraphCalls flat_map].
  fold (allGraphCalls (session (after (cycleOf this i)) pre)).
  pose proof (init_cycle this i Hst) as (_ & _ & _ & _ & Hfail & _).
  destruct (Hfail Hi) as (S1 & _).
  rewrite (IH _ S1 Hrest), app_nil_r.
  unfold cycleOf. cbn [events].
  now rewrite (callback_unresolved this i Hst Hi).
Qed.

(** X10.  Over a whole session the graph is configured once: the calls it
    receives are, at the first successful lookup, the inverse of the resolved
    transform and then the camera matrix of that message set's calibration,
    and nothing before or after. *)
Theorem graph_configured_once (members : Tracking) (pre : list Input)
        (x : Input) (post : list Input) (t : Transform) :
  Forall (fun i => lookupOf i = None) pre ->
  lookupOf x = Some t ->
  allGraphCalls (session (run (Tracking_new members)) (pre ++ x :: post))
  = [GraphSetCamera2Odom (tf_inverse t);
     GraphSetCameraMatrix (snd (getCameraModel (l_info_msg x) (r_info_msg x)))].
Proof.
  intros Hpre Hx.
  set (s0 := run (Tracking_new members)).
  assert (H0 : state_ s0 = NOT_INITIALIZED) by reflexivity.
  destruct (@unresolved_prefix T C pre s0 H0 Hpre) as (Hst & _).
  rewrite session_app. unfold allGraphCalls. rewrite flat_map_app.
  fold (allGraphCalls (session s0 pre)).
  rewrite (@unresolved_graph_silent pre s0 H0 Hpre). cbn [app session flat_map].
  pose proof (init_cycle (finalState s0 pre) x Hst) as (_ & _ & _ & _ & _ & Hok).
  destruct (Hok t Hx) as (S1 & _).
  assert (Hpast : state_ (after (cycleOf (finalState s0 pre) x))
                  <> NOT_INITIALIZED) by (rewrite S1; discriminate).
  pose proof (config_frozen post _ Hpast) as Hfrozen.
  assert (Hpost : flat_map (fun c => filter isGraphCall (events c))
                    (session (after (cycleOf (finalState s0 pre) x)) post)
                  = []).
  { induction Hfrozen as [|c cs (_ & _ & _ & _ & Hg) _ IH]; [reflexivity|].
    cbn [flat_map]. now rewrite Hg, IH. }
  rewrite Hpost, app_nil_r.
  unfold cycleOf at 1. cbn [events].
  now rewrite (callback_resolved (finalState s0 pre) x Hst Hx).
Qed.

Lemma stampedFrame_pose (this : Tracking) (i : Input) :
  getOdometryPose (stampedFrame this i)
  = tf_mul (odomTotf (odom_msg i)) (odom2camera_ this).
Proof.
  unfold stampedFrame.
  destruct (imgMsgToMat (l_img_msg i) (r_img_msg i)). reflexivity.
Qed.

Lemma poses_after_initialization (post : list Input) (this : Tracking) :
  state_ this <> NOT_INITIALIZED ->
  Forall (fun c => getOdometryPose (c_frame_ (after c))
                   = tf_mul (odomTotf (odom_msg (input c)))
                            (odom2camera_ this))
         (session this post).
Proof.
  revert this. induction post as [|i post IH]; intros this Hs; cbn [session].
  - constructor.
  - pose proof (tracking_cycle_config this i Hs)
      as (C1 & _ & _ & _ & _ & C6).
    pose proof (cycle_tracked this i Hs) as (_ & _ & _ & _ & _ & Hcur).
    constructor.
    + rewrite Hcur. cbn [getOdometryPose setInliers input cycleOf].
      apply stampedFrame_pose.
    + rewrite <- C1. apply IH. exact C6.
Qed.

(** X11.  Every frame of a session carries the odometry of its own message
    set composed with the transform resolved at initialization: the first
    fixed frame, and the current frame of every later cycle. *)
Theorem frames_carry_odometry (members : Tracking) (pre : list Input)
        (x : Input) (post : list Input) (t : Transform) :
  let s0 := run (Tracking_new members) in
  let cx := cycleOf (finalState s0 pre) x in
  Forall (fun i => lookupOf i = None) pre ->
  lookupOf x = Some t ->
  getOdometryPose (f_frame_ (after cx)) = tf_mul (odomTotf (odom_msg x)) t
  /\ Forall (fun c => getOdometryPose (c_frame_ (after c))
                      = tf_mul (odomTotf (odom_msg (input c))) t)
            (session (after cx) post).
Proof.
  intros s0 cx Hpre Hx.
  assert (H0 : state_ s0 = NOT_INITIALIZED) by reflexivity.
  destruct (@unresolved_prefix T C pre s0 H0 Hpre) as (Hst & _).
  pose proof (init_cycle (finalState s0 pre) x Hst) as (_ & _ & _ & _ & _ & Hok).
  destruct (Hok t Hx) as (S1 & S2 & _). fold cx in S1, S2.
  split.
  - unfold cx, cycleOf. cbn [after].
    rewrite (callback_resolved (finalState s0 pre) x Hst Hx).
    cbn [fst f_frame_ set_state_ set_f_frame_]. rewrite stampedFrame_pose.
    reflexivity.
  - assert (Hpast : state_ (after cx) <> NOT_INITIALIZED)
      by (rewrite S1; discriminate).
    rewrite <- S2. apply poses_after_initialization. exact Hpast.
Qed.

Lemma lastAdded_snoc (l : list Frame) (g : Frame) :
  lastAdded (l ++ [g]) = Some g.
Proof. unfold lastAdded. now rewrite rev_app_distr. Qed.

Lemma map_follows_fixed_frame (ins : list Input) (this : Tracking)
      (sofar : list Frame) :
  (state_ this = WORKING -> lastAdded sofar = Some (f_frame_ this)) ->
  (state_ this <> WORKING -> sofar = []) ->
  (state_ (finalState this ins) = WORKING ->
     lastAdded (sofar ++ allAdds (session this ins))
     = Some (f_frame_ (finalState this ins)))
  /\ (state_ (finalState this ins) <> WORKING ->
     sofar ++ allAdds (session this ins) = []).
Proof.
  revert this sofar. induction ins as [|i ins IH]; intros this sofar Hw Hn.
  - cbn [session allAdds flat_map finalState fold_left].
    rewrite app_nil_r. split; assumption.
  - change (finalState this (i :: ins))
      with (finalState (after (cycleOf this i)) ins).
    cbn [session allAdds flat_map].
    fold (allAdds (session (after (cycleOf this i)) ins)).
    rewrite app_assoc.
    apply IH.
    + intros Hafter.
      destruct (not_initialized_cases (state_ this)) as [Hni|Hs].
      * pose proof (init_cycle this i Hni) as (Hnw & _). now elim Hnw.
      * pose proof (cycle_policy this i Hs) as (P1 & P2 & P3 & P4).
        destruct (Nat.lt_ge_cases (cycleInliers (cycleOf this i)) MIN_INLIERS)
          as [Hlt|Hge];
          destruct (state_ this) eqn:Est; try (now elim Hs).
        -- destruct (P1 eq_refl Hlt) as (E & _). rewrite E in Hafter.
           discriminate.
        -- destruct (P3 eq_refl Hlt) as (_ & -> & _ & ->).
           apply lastAdded_snoc.
        -- destruct (P2 eq_refl Hge) as (_ & -> & _ & ->).
           apply lastAdded_snoc.
        -- destruct (P4 eq_refl Hge) as (_ & -> & _ & ->).
           rewrite app_nil_r. apply Hw. reflexivity.
    + intros Hafter.
      destruct (not_initialized_cases (state_ this)) as [Hni|Hs].
      * pose proof (init_cycle this i Hni) as (_ & _ & -> & _).
        rewrite app_nil_r. apply Hn. rewrite Hni. discriminate.
      * pose proof (cycle_policy this i Hs) as (P1 & P2 & P3 & P4).
        destruct (Nat.lt_ge_cases (cycleInliers (cycleOf this i)) MIN_INLIERS)
          as [Hlt|Hge];
          destruct (state_ this) eqn:Est; try (now elim Hs).
        -- destruct (P1 eq_refl Hlt) as (_ & _ & _ & ->).
           rewrite app_nil_r. apply Hn. discriminate.
        -- destruct (P3 eq_refl Hlt) as (E & _). now elim Hafter.
        -- destruct (P2 eq_refl Hge) as (E & _). now elim Hafter.
        -- destruct (P4 eq_refl Hge) as (E & _). now elim Hafter.
Qed.

(** X12.  The map and the tracker agree on the reference: at any point of a
    session, if the state is WORKING the fixed frame is the frame most
    recently handed to the map, and if it is not WORKING the map has been
    handed nothing. *)
Theorem map_tracks_fixed_frame (members : Tracking) (ins : list Input) :
  let s0 := run (Tracking_new members) in
  (state_ (finalState s0 ins) = WORKING ->
     lastAdded (allAdds (session s0 ins)) = Some (f_frame_ (finalState s0 ins)))
  /\ (state_ (finalState s0 ins) <> WORKING ->
     allAdds (session s0 ins) = []).
Proof.
  intros s0.
  apply (@map_follows_fixed_frame ins s0 []).
  - intros H. discriminate H.
  - intros _. reflexivity.
Qed.

(** X13.  The initializing callback builds the first fixed frame from the
    images of its message set with the camera model of that same message
    set's calibration, stamped with the odometry composed with the transform
    just resolved; the current frame, the stored pose, the bookkeeping and
    the reset flag are untouched. *)
Theorem initialization_builds_fixed_frame (this : Tracking) (i : Input)
        (t : Transform) :
  state_ this = NOT_INITIALIZED ->
  lookupOf i = Some t ->
  let c := cycleOf this i in
  let imgs := imgMsgToMat (l_img_msg i) (r_img_msg i) in
  let mk := getCameraModel (l_info_msg i) (r_info_msg i) in
  f_frame_ (after c)
  = setOdometryPose (tf_mul (odomTotf (odom_msg i)) t)
                    (newFrame (fst imgs) (snd imgs) (fst mk))
  /\ c_frame_ (after c) = c_frame_ this
  /\ rvec_ (after c) = rvec_ this /\ tvec_ (after c) = tvec_ this
  /\ matches_ (after c) = matches_ this /\ inliers_ (after c) = inliers_ this
  /\ reset_fixed_frame_ (after c) = reset_fixed_frame_ this.
Proof.
  intros Hst Hx c imgs mk. unfold c, cycleOf. cbn [after].
  rewrite (callback_resolved this i Hst Hx).
  cbn [fst f_frame_ c_frame_ rvec_ tvec_ matches_ inliers_ reset_fixed_frame_
       set_state_ set_f_frame_ set_camera_ set_odom2camera_].
  split; [|repeat split].
  unfold stampedFrame. fold imgs. fold mk.
  cbn [odom2camera_ camera_model_ set_camera_ set_odom2camera_].
  destruct imgs. reflexivity.
Qed.

End SessionProperties.

(** ** The further properties at work on synthetic sessions *)

Section MoreScenarios.

Import Synthetic.

#[local] Existing Instance Synthetic.types.
#[local] Existing Instance Synthetic.collab.

Lemma ties_are_rejected_witness :
  (0 <= hDist (hm 2 0 10) <= maxHamming)%Z
  /\ hDist (hm 2 1 10) = hDist (hm 2 0 10)
  /\ ratioStep [] (map toDMatch [hm 2 0 10; hm 2 1 10]) = [].
Proof.
  assert (H1 : (0 <= hDist (hm 2 0 10) <= maxHamming)%Z)
    by (cbn [hDist hm]; unfold maxHamming; lia).
  assert (H2 : hDist (hm 2 1 10) = hDist (hm 2 0 10)) by reflexivity.
  split; [exact H1|]. split; [exact H2|].
  exact (ties_are_rejected [] (hm 2 0 10) (hm 2 1 10) [] H1 H2).
Defined.

Lemma solver_gets_aligned_points_witness :
  state_ bootstrapped <> NOT_INITIALIZED
  /\ In (SolvePnPRansac (solveArgs (entering bootstrapped (view 1 7))))
        (events (cycleOf bootstrapped (view 1 7)))
  /\ length (objectPoints (solveArgs (entering bootstrapped (view 1 7))))
     = length (imagePoints (solveArgs (entering bootstrapped (view 1 7))))
  /\ MIN_INLIERS
     <= length (objectPoints (solveArgs (entering bootstrapped (view 1 7)))).
Proof.
  assert (Hs : state_ bootstrapped <> NOT_INITIALIZED)
    by (vm_compute; intros H; discriminate H).
  assert (Hin : In (SolvePnPRansac (solveArgs (entering bootstrapped (view 1 7))))
                   (events (cycleOf bootstrapped (view 1 7))))
    by (vm_compute; left; reflexivity).
  pose proof (solver_gets_aligned_points bootstrapped (view 1 7) _ Hs Hin)
    as (H1 & _ & H3 & _).
  split; [exact Hs|]. split; [exact Hin|]. split; assumption.
Defined.

Lemma solver_points_come_from_frames_witness :
  state_ bootstrapped <> NOT_INITIALIZED
  /\ In (SolvePnPRansac (solveArgs (entering bootstrapped (view 1 7))))
        (events (cycleOf bootstrapped (view 1 7)))
  /\ indicesInRange (f_frame_ bootstrapped)
       (stampedFrame bootstrapped (view 1 7))
       (cycleMatches (f_frame_ bootstrapped)
                     (stampedFrame bootstrapped (view 1 7))) = true
  /\ (forall p,
        In p (objectPoints (solveArgs (entering bootstrapped (view 1 7)))) ->
        In p (getCameraPoints (stampedFrame bootstrapped (view 1 7)))).
Proof.
  assert (Hs : state_ bootstrapped <> NOT_INITIALIZED)
    by (vm_compute; intros H; discriminate H).
  assert (Hin : In (SolvePnPRansac (solveArgs (entering bootstrapped (view 1 7))))
                   (events (cycleOf bootstrapped (view 1 7))))
    by (vm_compute; left; reflexivity).
  assert (Hr : indicesInRange (f_frame_ bootstrapped)
                 (stampedFrame bootstrapped (view 1 7))
                 (cycleMatches (f_frame_ bootstrapped)
                               (stampedFrame bootstrapped (view 1 7))) = true)
    by (vm_compute; reflexivity).
  split; [exact Hs|]. split; [exact Hin|]. split; [exact Hr|].
  exact (proj1 (solver_points_come_from_frames bootstrapped (view 1 7) _
                  Hs Hin Hr)).
Defined.

Lemma working_warm_start_witness :
  state_ working = WORKING
  /\ In (SolvePnPRansac
           (solveArgs (entering (after (cycleOf working (sparseView 2 8)))
                                (view 3 8))))
        (events (cycleOf (after (cycleOf working (sparseView 2 8))) (view 3 8)))
  /\ useExtrinsicGuess
       (solveArgs (entering (after (cycleOf working (sparseView 2 8)))
                            (view 3 8)))
     = (MIN_INLIERS <=? cycleInliers (cycleOf working (sparseView 2 8)))
  /\ (MIN_INLIERS <=? cycleInliers (cycleOf working (sparseView 2 8))) = false.
Proof.
  assert (H1 : state_ working = WORKING) by reflexivity.
  assert (Hin : In (SolvePnPRansac
                      (solveArgs
                         (entering (after (cycleOf working (sparseView 2 8)))
                                   (view 3 8))))
                   (events (cycleOf (after (cycleOf working (sparseView 2 8)))
                                    (view 3 8))))
    by (vm_compute; left; reflexivity).
  split; [exact H1|]. split; [exact Hin|].
  split; [|vm_compute; reflexivity].
  exact (proj1 (working_warm_start working (sparseView 2 8) (view 3 8) _
                  H1 Hin)).
Defined.

Lemma sparse_cycle_replaces_fixed_frame_witness :
  state_ working <> NOT_INITIALIZED
  /\ length (cycleMatches (f_frame_ working)
                          (stampedFrame working (sparseView 2 8)))
     < MIN_INLIERS
  /\ state_ working = WORKING
  /\ reset_fixed_frame_ (after (cycleOf working (sparseView 2 8))) = true
  /\ f_frame_ (after (cycleOf working (sparseView 2 8)))
     = clusterWorldpoints
         (computeWorldPoints
            (setInliers 0 (stampedFrame working (sparseView 2 8)))).
Proof.
  assert (Hs : state_ working <> NOT_INITIALIZED)
    by (vm_compute; intros H; discriminate H).
  assert (Hlt : length (cycleMatches (f_frame_ working)
                          (stampedFrame working (sparseView 2 8)))
                < MIN_INLIERS)
    by (apply Nat.ltb_lt; vm_compute; reflexivity).
  assert (Hw : state_ working = WORKING) by reflexivity.
  destruct (sparse_cycle_replaces_fixed_frame working (sparseView 2 8) Hs Hlt)
    as (_ & Hwork).
  destruct (Hwork Hw) as (E1 & E2 & _).
  split; [exact Hs|]. split; [exact Hlt|]. split; [exact Hw|].
  split; assumption.
Defined.

Lemma bookkeeping_is_per_cycle_witness :
  state_ working <> NOT_INITIALIZED
  /\ after (cycleOf (set_matches_ [toDMatch (hm 0 0 9)]
                       (set_inliers_ [3; 1; 2] working)) (view 2 7))
     = after (cycleOf working (view 2 7)).
Proof.
  assert (Hs : state_ working <> NOT_INITIALIZED)
    by (vm_compute; intros H; discriminate H).
  split; [exact Hs|].
  exact (proj1 (bookkeeping_is_per_cycle working (view 2 7)
                  [toDMatch (hm 0 0 9)] [3; 1; 2] Hs)).
Defined.

Lemma tracking_cycle_call_order_witness :
  state_ bootstrapped <> NOT_INITIALIZED
  /\ events (cycleOf bootstrapped (view 1 7))
     = map SolvePnPRansac (solveCalls (events (cycleOf bootstrapped (view 1 7))))
         ++ PublisherUpdate
         :: map MapAddPoints (mapAdds (events (cycleOf bootstrapped (view 1 7))))
  /\ length (solveCalls (events (cycleOf bootstrapped (view 1 7)))) = 1
  /\ length (mapAdds (events (cycleOf bootstrapped (view 1 7)))) = 1.
Proof.
  assert (Hs : state_ bootstrapped <> NOT_INITIALIZED)
    by (vm_compute; intros H; discriminate H).
  split; [exact Hs|].
  split; [exact (proj1 (tracking_cycle_call_order bootstrapped (view 1 7) Hs))|].
  split; vm_compute; reflexivity.
Defined.

Lemma graph_configured_once_witness :
  Forall (fun i => lookupOf i = None) [unresolved 0 7; unresolved 1 7]
  /\ lookupOf (view 2 7) = Some 3%Z
  /\ allGraphCalls
       (session started
          ([unresolved 0 7; unresolved 1 7]
             ++ view 2 7 :: [view 3 7; sparseView 4 9; view 5 9]))
     = [GraphSetCamera2Odom (-3)%Z; GraphSetCameraMatrix [1%Z; 2%Z]].
Proof.
  assert (H1 : Forall (fun i => lookupOf i = None)
                      [unresolved 0 7; unresolved 1 7])
    by (repeat constructor).
  assert (H2 : lookupOf (view 2 7) = Some 3%Z) by reflexivity.
  split; [exact H1|]. split; [exact H2|].
  exact (@graph_configured_once types collab members
           [unresolved 0 7; unresolved 1 7] (view 2 7)
           [view 3 7; sparseView 4 9; view 5 9] 3%Z H1 H2).
Defined.

Lemma frames_carry_odometry_witness :
  Forall (fun i => lookupOf i = None) [unresolved 0 7]
  /\ lookupOf (view 4 7) = Some 3%Z
  /\ getOdometryPose
       (f_frame_ (after (cycleOf (finalState started [unresolved 0 7])
                                 (view 4 7))))
     = 7%Z.
Proof.
  assert (H1 : Forall (fun i => lookupOf i = None) [unresolved 0 7])
    by (repeat constructor).
  assert (H2 : lookupOf (view 4 7) = Some 3%Z) by reflexivity.
  split; [exact H1|]. split; [exact H2|].
  exact (proj1 (@frames_carry_odometry types collab members [unresolved 0 7]
                  (view 4 7) [view 5 7] 3%Z H1 H2)).
Defined.

Lemma initialization_builds_fixed_frame_witness :
  state_ started = NOT_INITIALIZED
  /\ lookupOf (view 4 7) = Some 3%Z
  /\ f_frame_ (after (cycleOf started (view 4 7)))
     = setOdometryPose 7%Z (frame (repeat 0%Z 40) (repeat 7%Z 40))
  /\ c_frame_ (after (cycleOf started (view 4 7))) = c_frame_ started.
Proof.
  assert (H1 : state_ started = NOT_INITIALIZED) by reflexivity.
  assert (H2 : lookupOf (view 4 7) = Some 3%Z) by reflexivity.
  pose proof (initialization_builds_fixed_frame started (view 4 7) H1 H2)
    as (E1 & E2 & _).
  split; [exact H1|]. split; [exact H2|]. split; [exact E1 | exact E2].
Defined.

End MoreScenarios.
